(** * HugeCTR embedding collection: grouping of lookups and shard queries

    A shallow embedding of [HugeCTR/embedding/common.hpp]: the constructor of
    [EmbeddingCollectionParam], which derives the grouped lookup params from
    the lookups and the table groups, the queries [lookup_id_in_group],
    [has_table_shard] and [get_table_shard_id], and
    [WgradAttr::get_unique_table_ids].

    Conventions.  A C++ [int] is a [Z]; conversions from [size_t] to [int]
    are written out ([int_of_size_t]).  A [std::vector] is a [list]; an
    access [v[i]] outside the vector is undefined behaviour in C++ and is the
    outcome [Undefined] here.  A thrown exception is the outcome [Raise]. *)

From Stdlib Require Import String Bool ZArith List Lia Sorted Permutation.
Import ListNotations.
Open Scope string_scope.
Open Scope list_scope.
Open Scope Z_scope.

(** ** Machine integers *)

Definition INT_MAX : Z := 2147483647.

(** Conversion of an unsigned (or wider) value to a 32-bit [int]. *)
Definition int_of_size_t (n : Z) : Z := (n + 2 ^ 31) mod 2 ^ 32 - 2 ^ 31.

(** ** Outcomes of a call *)

(** Modelled from the spec: [HugeCTR::Error_t] is declared outside this
    header; of its error codes only [IllegalCall] is used here, for what the
    spec calls a configuration error. *)
Inductive Error_t : Set := IllegalCall.

(** What a call can throw: the error and message of an [HCTR_OWN_THROW], or
    the hint of a failed [HCTR_CHECK_HINT]. *)
Inductive Exception : Set :=
| OwnThrow (error : Error_t) (message : string)
| CheckHint (hint : string).

Inductive outcome (A : Type) : Type :=
| Ok (a : A)
| Raise (e : Exception)
| Undefined.
Arguments Ok {A} a.
Arguments Raise {A} e.
Arguments Undefined {A}.

Definition bind {A B : Type} (m : outcome A) (k : A -> outcome B) : outcome B :=
  match m with
  | Ok a => k a
  | Raise e => Raise e
  | Undefined => Undefined
  end.

Notation "x <- m ;; k" := (bind m (fun x => k))
  (at level 61, m at next level, right associativity).

(** Modelled from the spec: the macro [HCTR_OWN_THROW] is defined outside
    this header.  The spec describes its use as signalling a fatal error that
    is surfaced to the caller at once and never retried: the call ends. *)
Definition HCTR_OWN_THROW {A : Type} (error : Error_t) (message : string) : outcome A :=
  Raise (OwnThrow error message).

(** Modelled from the spec: the macro [HCTR_CHECK_HINT] is defined outside
    this header.  The spec describes a failed check as a fatal error; a
    check that holds has no effect. *)
Definition HCTR_CHECK_HINT (condition : bool) (hint : string) : outcome unit :=
  if condition then Ok tt else Raise (CheckHint hint).

(** A [for] loop over the elements of [xs], threading the loop state. *)
Fixpoint for_each {A S : Type} (body : S -> A -> outcome S) (xs : list A) (s : S)
  : outcome S :=
  match xs with
  | [] => Ok s
  | x :: xs' => s' <- body s x ;; for_each body xs' s'
  end.

(** ** Vectors *)

(** [v[i]] for an [int] or [size_t] index. *)
Definition vec_at {A : Type} (v : list A) (i : Z) : outcome A :=
  if i <? 0 then Undefined
  else match nth_error v (Z.to_nat i) with
       | Some a => Ok a
       | None => Undefined
       end.

Definition push_back {A : Type} (v : list A) (a : A) : list A := v ++ [a].

(** [std::find(v.begin(), v.end(), x)], as the distance of the returned
    iterator from [v.begin()]; [length v] stands for [v.end()]. *)
Fixpoint std_find (v : list Z) (x : Z) : nat :=
  match v with
  | [] => O
  | y :: v' => if y =? x then O else S (std_find v' x)
  end.

(** [std::find(...) == v.end()] *)
Definition not_found (v : list Z) (x : Z) : bool :=
  Nat.eqb (std_find v x) (length v).

(** The values [0, 1, ..., n-1] of a loop counter [i < n]. *)
Definition counter (n : Z) : list Z := map Z.of_nat (seq 0 (Z.to_nat n)).

(** ** Enumerations *)

(** [enum class Combiner : char { Sum, Average, Concat }].  The constructor
    compares a combiner with the three enumerators and has a branch for any
    other value of the underlying type, so a combiner is its value. *)
Definition Combiner : Set := Z.
Module Combiner.
Definition Sum : Combiner := 0.
Definition Average : Combiner := 1.
Definition Concat : Combiner := 2.
End Combiner.

(** [enum class DenseCompressionStrategy : int8_t { Unique, CacheFrequent }],
    also compared against its enumerators with a branch for other values. *)
Definition DenseCompressionStrategy : Set := Z.
Module DenseCompressionStrategy.
Definition Unique : DenseCompressionStrategy := 0.
Definition CacheFrequent : DenseCompressionStrategy := 1.
End DenseCompressionStrategy.

(** The remaining enumerations are only stored. *)
Inductive TablePlacementStrategy : Set := DataParallel | ModelParallel.
Inductive EmbeddingLayout : Set := FeatureMajor | BatchMajor.
Inductive CommunicationStrategy : Set := Uniform | Hierarchical.
Inductive SortStrategy : Set := Radix | Segmented.
Inductive KeysPreprocessStrategy : Set := KeysPreprocessNone | AddOffset.
Inductive AllreduceStrategy : Set := AllreduceSparse | AllreduceDense | GroupDense.
Inductive EmbeddingType : Set := Sparse | Dense | FrequentDense | InfrequentDense.

(** ** Structs *)

Record LookupParam : Set := {
  lookup_id : Z;
  table_id : Z;
  combiner : Combiner;
  max_hotness : Z;
  ev_size : Z
}.

Record GroupedTableParam : Set := {
  table_placement_strategy : TablePlacementStrategy;
  table_ids : list Z
}.

Record GroupedLookupParam : Set := {
  grouped_table_idx : Z;  (* -1 means lookup in local cache *)
  lookup_table_placement_strategy : TablePlacementStrategy;
  lookup_ids : list Z;
  embedding_type : EmbeddingType
}.

(** The data-type tags and the frequent-keys tensors of the C++ struct are
    stored only; no function below reads them and they are left out. *)
Record EmbeddingCollectionParam : Set := {
  num_table : Z;
  num_lookup : Z;
  lookup_params : list LookupParam;
  shard_matrix : list (list Z);  (* num_gpus * num_table *)
  grouped_table_params : list GroupedTableParam;
  grouped_lookup_params : list GroupedLookupParam;
  universal_batch_size : Z;
  input_layout_ : EmbeddingLayout;
  output_layout_ : EmbeddingLayout;
  sort_strategy_ : SortStrategy;
  keys_preprocess_strategy_ : KeysPreprocessStrategy;
  allreduce_strategy_ : AllreduceStrategy;
  comm_strategy_ : CommunicationStrategy;
  dense_compression_strategy_ : DenseCompressionStrategy
}.

(** ** The constructor of [EmbeddingCollectionParam] *)

Definition combiner_not_supported : string :=
  "combiner not supported in embedding collection.".
Definition dense_compression_strategy_not_supported : string :=
  "dense_compression_strategy not supported in embedding collection.".

(** Body of the inner loop, for one [lookup_id]; the state is
    [(sparse_lookup_ids, dense_lookup_ids)]. *)
Definition lookup_loop_body (lookup_params : list LookupParam)
    (table_param : GroupedTableParam) (ids : list Z * list Z) (lookup_id : Z)
  : outcome (list Z * list Z) :=
  let '(sparse_lookup_ids, dense_lookup_ids) := ids in
  lp <- vec_at lookup_params lookup_id ;;
  let table_id := table_id lp in
  if not_found (table_ids table_param) table_id then Ok ids
  else
    let combiner := combiner lp in
    if combiner =? Combiner.Concat then
      Ok (sparse_lookup_ids, push_back dense_lookup_ids lookup_id)
    else if (combiner =? Combiner.Sum) || (combiner =? Combiner.Average) then
      Ok (push_back sparse_lookup_ids lookup_id, dense_lookup_ids)
    else HCTR_OWN_THROW IllegalCall combiner_not_supported.

(** The end of the body of the outer loop: the groups emplaced for table
    group [grouped_table_id] once its lookups are split.  [strategy] is the
    value of the member [dense_compression_strategy_] that the code reads. *)
Definition emplace_groups (strategy : DenseCompressionStrategy)
    (grouped_table_id : nat) (table_param : GroupedTableParam)
    (sparse_lookup_ids dense_lookup_ids : list Z)
    (grouped_lookup_params : list GroupedLookupParam)
  : outcome (list GroupedLookupParam) :=
  let idx := int_of_size_t (Z.of_nat grouped_table_id) in
  let tps := table_placement_strategy table_param in
  let grouped_lookup_params :=
    match sparse_lookup_ids with
    | [] => grouped_lookup_params
    | _ :: _ =>
        push_back grouped_lookup_params
          {| grouped_table_idx := idx;
             lookup_table_placement_strategy := tps;
             lookup_ids := sparse_lookup_ids;
             embedding_type := Sparse |}
    end in
  match dense_lookup_ids with
  | [] => Ok grouped_lookup_params
  | _ :: _ =>
      if strategy =? DenseCompressionStrategy.Unique then
        Ok (push_back grouped_lookup_params
              {| grouped_table_idx := idx;
                 lookup_table_placement_strategy := tps;
                 lookup_ids := dense_lookup_ids;
                 embedding_type := Dense |})
      else if strategy =? DenseCompressionStrategy.CacheFrequent then
        Ok (push_back
              (push_back grouped_lookup_params
                 {| grouped_table_idx := idx;
                    lookup_table_placement_strategy := tps;
                    lookup_ids := dense_lookup_ids;
                    embedding_type := InfrequentDense |})
              {| grouped_table_idx := -1;
                 lookup_table_placement_strategy := tps;
                 lookup_ids := dense_lookup_ids;
                 embedding_type := FrequentDense |})
      else HCTR_OWN_THROW IllegalCall dense_compression_strategy_not_supported
  end.

(** Body of the outer loop, for one [grouped_table_id]; the state is
    [grouped_lookup_params]. *)
Definition group_loop_body (strategy : DenseCompressionStrategy) (num_lookup : Z)
    (lookup_params : list LookupParam)
    (grouped_lookup_params : list GroupedLookupParam)
    (it : nat * GroupedTableParam) : outcome (list GroupedLookupParam) :=
  let '(grouped_table_id, table_param) := it in
  ids <- for_each (lookup_loop_body lookup_params table_param)
                  (counter num_lookup) ([], []) ;;
  let '(sparse_lookup_ids, dense_lookup_ids) := ids in
  emplace_groups strategy grouped_table_id table_param
    sparse_lookup_ids dense_lookup_ids grouped_lookup_params.

(** The vector with the index of each element. *)
Definition enumerate {A : Type} (v : list A) : list (nat * A) :=
  combine (seq 0 (length v)) v.

(** The constructor body: the loop over [grouped_table_params], starting from
    an empty [grouped_lookup_params]. *)
Definition build_grouped_lookup_params (strategy : DenseCompressionStrategy)
    (num_lookup : Z) (lookup_params : list LookupParam)
    (grouped_table_params : list GroupedTableParam)
  : outcome (list GroupedLookupParam) :=
  for_each (group_loop_body strategy num_lookup lookup_params)
           (enumerate grouped_table_params) [].

(** The constructor.  It has no argument for the dense compression strategy:
    the member keeps its default member initializer
    [DenseCompressionStrategy::Unique], and that is the value the body reads. *)
Definition EmbeddingCollectionParam_new (num_table num_lookup : Z)
    (lookup_params : list LookupParam) (shard_matrix : list (list Z))
    (grouped_table_params : list GroupedTableParam) (universal_batch_size : Z)
    (input_layout output_layout : EmbeddingLayout) (sort_strategy : SortStrategy)
    (keys_preprocess_strategy : KeysPreprocessStrategy)
    (allreduce_strategy : AllreduceStrategy) (comm_strategy : CommunicationStrategy)
  : outcome EmbeddingCollectionParam :=
  groups <- build_grouped_lookup_params DenseCompressionStrategy.Unique
              num_lookup lookup_params grouped_table_params ;;
  Ok {| num_table := num_table;
        num_lookup := num_lookup;
        lookup_params := lookup_params;
        shard_matrix := shard_matrix;
        grouped_table_params := grouped_table_params;
        grouped_lookup_params := groups;
        universal_batch_size := universal_batch_size;
        input_layout_ := input_layout;
        output_layout_ := output_layout;
        sort_strategy_ := sort_strategy;
        keys_preprocess_strategy_ := keys_preprocess_strategy;
        allreduce_strategy_ := allreduce_strategy;
        comm_strategy_ := comm_strategy;
        dense_compression_strategy_ := DenseCompressionStrategy.Unique |}.

(** ** Queries *)

Definition lookup_id_in_group (p : EmbeddingCollectionParam) (grouped_id : Z)
    (lookup_id : Z) : outcome bool :=
  group_param <- vec_at (grouped_lookup_params p) grouped_id ;;
  Ok (negb (not_found (lookup_ids group_param) lookup_id)).

Definition has_table_shard (p : EmbeddingCollectionParam) (gpu_id grouped_id lookup_id : Z)
  : outcome bool :=
  lp <- vec_at (lookup_params p) lookup_id ;;
  let table_id := table_id lp in
  row <- vec_at (shard_matrix p) gpu_id ;;
  entry <- vec_at row table_id ;;
  let has_portion := negb (entry =? 0) in
  in_group <- lookup_id_in_group p grouped_id lookup_id ;;
  Ok (in_group && has_portion).

Definition shard_id_not_found : string :=
  "get_table_shard_id does not find shard id".

(** Body of the loop of [get_table_shard_id], for one [ggpu_id]. *)
Definition shard_loop_body (table_id : Z) (shard_gpus : list Z)
    (it : nat * list Z) : outcome (list Z) :=
  let '(ggpu_id, row) := it in
  entry <- vec_at row table_id ;;
  if entry =? 1 then Ok (push_back shard_gpus (int_of_size_t (Z.of_nat ggpu_id)))
  else Ok shard_gpus.

(** The out-parameters [( *shard_id, *num_shard )] are the result. *)
Definition get_table_shard_id (p : EmbeddingCollectionParam) (gpu_id table_id : Z)
  : outcome (Z * Z) :=
  shard_gpus <- for_each (shard_loop_body table_id) (enumerate (shard_matrix p)) [] ;;
  let find_shard_id_iter := std_find shard_gpus gpu_id in
  _ <- HCTR_CHECK_HINT (negb (Nat.eqb find_shard_id_iter (length shard_gpus)))
         shard_id_not_found ;;
  Ok (int_of_size_t (Z.of_nat find_shard_id_iter),
      int_of_size_t (Z.of_nat (length shard_gpus))).

(** ** [WgradAttr] *)

Module WgradAttr.

(** The [int] tensors of the struct, as the values they hold. *)
Definition Tensor : Set := list Z.

Record t : Set := {
  num_table : Z;
  num_lookup : Z;
  lookup_id_to_table_ids : Tensor;
  sorted_lookup_ids : Tensor;
  sorted_table_ids : Tensor;
  sorted_unique_table_ids : Tensor;
  table_id_to_ev_size : Tensor;
  h_sorted_unique_table_ids : list Z;
  is_same_ev_size : bool;
  same_ev_size : Z
}.

Definition get_unique_table_ids (w : t) : Tensor :=
  if num_table w =? num_lookup w then lookup_id_to_table_ids w
  else sorted_unique_table_ids w.

(** Stable insertion of a [(table id, lookup id)] pair by table id. *)
Fixpoint insert_by_table (p : Z * Z) (ps : list (Z * Z)) : list (Z * Z) :=
  match ps with
  | [] => [p]
  | q :: ps' =>
      if fst p <=? fst q then p :: q :: ps' else q :: insert_by_table p ps'
  end.

Fixpoint sort_by_table (ps : list (Z * Z)) : list (Z * Z) :=
  match ps with
  | [] => []
  | p :: ps' => insert_by_table p (sort_by_table ps')
  end.

(** One element of every run of equal neighbours. *)
Fixpoint deduplicate (v : list Z) : list Z :=
  match v with
  | [] => []
  | x :: v' =>
      match deduplicate v' with
      | [] => [x]
      | y :: r => if x =? y then y :: r else x :: y :: r
      end
  end.

(** The table ids of the lookups [ids], in that order. *)
Fixpoint tables_of (lookup_params : list LookupParam) (ids : list Z)
  : outcome (list Z) :=
  match ids with
  | [] => Ok []
  | id :: ids' =>
      lp <- vec_at lookup_params id ;;
      rest <- tables_of lookup_params ids' ;;
      Ok (table_id lp :: rest)
  end.

(** The vector size of table [table]: the one of the first lookup of it. *)
Definition ev_size_of_table (lookup_params : list LookupParam) (table : Z) : Z :=
  match find (fun lp => table_id lp =? table) lookup_params with
  | Some lp => ev_size lp
  | None => 0
  end.

Definition all_equal (v : list Z) : bool :=
  match v with
  | [] => true
  | x :: v' => forallb (Z.eqb x) v'
  end.

(** Modelled from the spec: [WgradAttr::init] is declared in the header and
    defined in a source file that is absent.  Following the description of
    GradientGroupAttr: for the lookup group [grouped_id] it builds the
    lookup-to-table array (one entry per lookup of the group), sorts the
    lookup ids and their table ids together by table id (stable, ties by
    lookup id), deduplicates the sorted table ids into the unique table
    ids and records the vector size of every unique table.  [num_lookup]
    counts the lookups of the group and [num_table] its unique tables, the
    reading under which the shortcut of [get_unique_table_ids] is
    "trivially unique". *)
Definition init (ebc_param : EmbeddingCollectionParam) (grouped_id : Z)
  : outcome t :=
  group_param <- vec_at (grouped_lookup_params ebc_param) grouped_id ;;
  let ids := lookup_ids group_param in
  tables <- tables_of (lookup_params ebc_param) ids ;;
  let sorted := sort_by_table (combine tables ids) in
  let unique := deduplicate (map fst sorted) in
  let sizes := map (ev_size_of_table (lookup_params ebc_param)) unique in
  Ok {| num_table := Z.of_nat (length unique);
        num_lookup := Z.of_nat (length ids);
        lookup_id_to_table_ids := tables;
        sorted_lookup_ids := map snd sorted;
        sorted_table_ids := map fst sorted;
        sorted_unique_table_ids := unique;
        table_id_to_ev_size := sizes;
        h_sorted_unique_table_ids := unique;
        is_same_ev_size := all_equal sizes;
        same_ev_size := if all_equal sizes then hd 0 sizes else 0 |}.

End WgradAttr.

(** ** Vocabulary of the statements *)

(** The table of the lookup belongs to the table group. *)
Definition in_table_group (table_param : GroupedTableParam) (lp : LookupParam) : bool :=
  negb (not_found (table_ids table_param) (table_id lp)).

Definition is_dense (c : Combiner) : bool := c =? Combiner.Concat.
Definition is_sparse (c : Combiner) : bool :=
  (c =? Combiner.Sum) || (c =? Combiner.Average).
Definition supported (c : Combiner) : bool := is_dense c || is_sparse c.

(** Lookup [lookup_id] exists, its table is in the group and its combiner
    satisfies [sel]. *)
Definition selects (lookup_params : list LookupParam) (table_param : GroupedTableParam)
    (sel : Combiner -> bool) (lookup_id : Z) : bool :=
  match vec_at lookup_params lookup_id with
  | Ok lp => in_table_group table_param lp && sel (combiner lp)
  | _ => false
  end.

(** The lookup ids below [num_lookup] that [selects] keeps, ascending. *)
Definition selected_ids (lookup_params : list LookupParam) (table_param : GroupedTableParam)
    (sel : Combiner -> bool) (num_lookup : Z) : list Z :=
  filter (selects lookup_params table_param sel) (counter num_lookup).

Definition unsupported (c : Combiner) : bool := negb (supported c).

(** [this->shard_matrix[gpu_id][table_id]] *)
Definition shard_entry (m : list (list Z)) (gpu_id table_id : Z) : outcome Z :=
  row <- vec_at m gpu_id ;; vec_at row table_id.

(** The devices whose entry for the table satisfies [sel], in ascending
    order of device index. *)
Definition devices_where (sel : Z -> bool) (m : list (list Z)) (table_id : Z) : list Z :=
  filter (fun g => match shard_entry m g table_id with
                   | Ok e => sel e
                   | _ => false
                   end)
         (counter (Z.of_nat (length m))).

(** The devices [get_table_shard_id] collects: entry equal to 1. *)
Definition shard_devices : list (list Z) -> Z -> list Z :=
  devices_where (fun e => e =? 1).

(** The devices [has_table_shard] accepts: entry different from 0. *)
Definition portion_devices : list (list Z) -> Z -> list Z :=
  devices_where (fun e => negb (e =? 0)).

(** Every row of the matrix has a column [table_id]. *)
Definition column_in_range (m : list (list Z)) (table_id : Z) : Prop :=
  Forall (fun row => 0 <= table_id < Z.of_nat (length row)) m.

(** Number of groups whose [lookup_ids] contain [lookup_id]. *)
Definition groups_containing (groups : list GroupedLookupParam) (lookup_id : Z) : nat :=
  length (filter (fun g => negb (not_found (lookup_ids g) lookup_id)) groups).

(** Number of table groups whose [table_ids] contain [table]. *)
Definition table_groups_containing (groups : list GroupedTableParam) (table : Z) : nat :=
  length (filter (fun g => negb (not_found (table_ids g) table)) groups).

(** The same lookup with another combiner. *)
Definition with_combiner (c : Combiner) (lp : LookupParam) : LookupParam :=
  {| lookup_id := lookup_id lp; table_id := table_id lp; combiner := c;
     max_hotness := max_hotness lp; ev_size := ev_size lp |}.

(** The vector with element [i] replaced by [a]. *)
Definition set_nth {A : Type} (v : list A) (i : nat) (a : A) : list A :=
  firstn i v ++ match skipn i v with [] => [] | _ :: r => a :: r end.

(** The call throws what [HCTR_OWN_THROW(IllegalCall, ...)] throws. *)
Definition throws_IllegalCall {A : Type} (o : outcome A) : Prop :=
  exists message, o = Raise (OwnThrow IllegalCall message).

(** Some lookup below [num_lookup] of a table of the table group has a
    combiner for which [sel] holds. *)
Definition has_lookup (num_lookup : Z) (lookup_params : list LookupParam)
    (sel : Combiner -> Prop) (table_param : GroupedTableParam) : Prop :=
  exists l lp, 0 <= l < num_lookup /\ vec_at lookup_params l = Ok lp /\
               In (table_id lp) (table_ids table_param) /\ sel (combiner lp).

Definition other_combiner (c : Combiner) : Prop :=
  c <> Combiner.Sum /\ c <> Combiner.Average /\ c <> Combiner.Concat.

Definition other_strategy (s : DenseCompressionStrategy) : Prop :=
  s <> DenseCompressionStrategy.Unique /\ s <> DenseCompressionStrategy.CacheFrequent.

(** The table group makes the constructor throw: one of its lookups has an
    unsupported combiner, or it has dense lookups under an unsupported dense
    compression strategy. *)
Definition group_rejected (strategy : DenseCompressionStrategy) (num_lookup : Z)
    (lookup_params : list LookupParam) (table_param : GroupedTableParam) : Prop :=
  has_lookup num_lookup lookup_params other_combiner table_param \/
  (has_lookup num_lookup lookup_params (eq Combiner.Concat) table_param /\
   other_strategy strategy).

(** The groups of a constructed object. *)
Definition groups_of (o : outcome EmbeddingCollectionParam)
  : outcome (list GroupedLookupParam) :=
  p <- o ;; Ok (grouped_lookup_params p).

(** ** Example configurations *)

Definition mk_lookup (id table : Z) (c : Combiner) : LookupParam :=
  {| lookup_id := id; table_id := table; combiner := c;
     max_hotness := 1; ev_size := 8 |}.

Definition mk_group (idx : Z) (ids : list Z) (ty : EmbeddingType) : GroupedLookupParam :=
  {| grouped_table_idx := idx; lookup_table_placement_strategy := ModelParallel;
     lookup_ids := ids; embedding_type := ty |}.

(** A table group with three tables, two Concat lookups and one Sum lookup. *)
Definition three_tables : GroupedTableParam :=
  {| table_placement_strategy := ModelParallel; table_ids := [0; 1; 2] |}.
Definition three_lookups : list LookupParam :=
  [mk_lookup 0 0 Combiner.Concat; mk_lookup 1 1 Combiner.Sum;
   mk_lookup 2 2 Combiner.Concat].

(** Tables 0 and 1 in one table group, table 2 in another. *)
Definition two_tables : GroupedTableParam :=
  {| table_placement_strategy := ModelParallel; table_ids := [0; 1] |}.
Definition last_table : GroupedTableParam :=
  {| table_placement_strategy := DataParallel; table_ids := [2] |}.
Definition two_lookups : list LookupParam :=
  [mk_lookup 0 0 Combiner.Sum; mk_lookup 1 1 Combiner.Concat].

(** Four devices, three tables; device 1 has the entry 2 for table 0. *)
Definition four_devices : list (list Z) :=
  [[1; 0; 0]; [2; 1; 1]; [1; 1; 0]; [0; 0; 1]].

(** The constructor with the arguments that are only stored fixed. *)
Definition construct (num_lookup : Z) (lookup_params : list LookupParam)
    (shard_matrix : list (list Z)) (grouped_table_params : list GroupedTableParam)
  : outcome EmbeddingCollectionParam :=
  EmbeddingCollectionParam_new 3 num_lookup lookup_params shard_matrix
    grouped_table_params 1024 FeatureMajor FeatureMajor Radix AddOffset
    AllreduceDense Uniform.

(** The object constructed from the three lookups of [three_tables] on the
    four devices. *)
Definition example_param : EmbeddingCollectionParam :=
  {| num_table := 3;
     num_lookup := 3;
     lookup_params := three_lookups;
     shard_matrix := four_devices;
     grouped_table_params := [three_tables];
     grouped_lookup_params := [mk_group 0 [1] Sparse; mk_group 0 [0; 2] Dense];
     universal_batch_size := 1024;
     input_layout_ := FeatureMajor;
     output_layout_ := FeatureMajor;
     sort_strategy_ := Radix;
     keys_preprocess_strategy_ := AddOffset;
     allreduce_strategy_ := AllreduceDense;
     comm_strategy_ := Uniform;
     dense_compression_strategy_ := DenseCompressionStrategy.Unique |}.

(** Two Concat lookups whose tables are in descending order. *)
Definition crossed_param : EmbeddingCollectionParam :=
  {| num_table := 3;
     num_lookup := 2;
     lookup_params := [mk_lookup 0 2 Combiner.Concat; mk_lookup 1 0 Combiner.Concat];
     shard_matrix := four_devices;
     grouped_table_params := [three_tables];
     grouped_lookup_params := [mk_group 0 [0; 1] Dense];
     universal_batch_size := 1024;
     input_layout_ := FeatureMajor;
     output_layout_ := FeatureMajor;
     sort_strategy_ := Radix;
     keys_preprocess_strategy_ := AddOffset;
     allreduce_strategy_ := AllreduceDense;
     comm_strategy_ := Uniform;
     dense_compression_strategy_ := DenseCompressionStrategy.Unique |}.

(** ** The result of the constructor in closed form *)

(** The Sparse group of table group [k], if it has Sum or Average lookups. *)
Definition sparse_group (n : Z) (lps : list LookupParam) (k : nat)
    (tp : GroupedTableParam) : list GroupedLookupParam :=
  match selected_ids lps tp is_sparse n with
  | [] => []
  | ids =>
      [{| grouped_table_idx := int_of_size_t (Z.of_nat k);
          lookup_table_placement_strategy := table_placement_strategy tp;
          lookup_ids := ids;
          embedding_type := Sparse |}]
  end.

(** The groups of the Concat lookups of table group [k], if it has any: one
    Dense group under Unique, an InfrequentDense and a FrequentDense group
    otherwise. *)
Definition dense_groups (st : DenseCompressionStrategy) (n : Z)
    (lps : list LookupParam) (k : nat) (tp : GroupedTableParam)
  : list GroupedLookupParam :=
  match selected_ids lps tp is_dense n with
  | [] => []
  | ids =>
      if st =? DenseCompressionStrategy.Unique then
        [{| grouped_table_idx := int_of_size_t (Z.of_nat k);
            lookup_table_placement_strategy := table_placement_strategy tp;
            lookup_ids := ids;
            embedding_type := Dense |}]
      else
        [{| grouped_table_idx := int_of_size_t (Z.of_nat k);
            lookup_table_placement_strategy := table_placement_strategy tp;
            lookup_ids := ids;
            embedding_type := InfrequentDense |};
         {| grouped_table_idx := -1;
            lookup_table_placement_strategy := table_placement_strategy tp;
            lookup_ids := ids;
            embedding_type := FrequentDense |}]
  end.

Definition table_group_groups (st : DenseCompressionStrategy) (n : Z)
    (lps : list LookupParam) (it : nat * GroupedTableParam)
  : list GroupedLookupParam :=
  sparse_group n lps (fst it) (snd it) ++ dense_groups st n lps (fst it) (snd it).

(** Two lookups that the constructor cannot tell apart. *)
Definition same_lookup (a b : LookupParam) : Prop :=
  table_id a = table_id b /\ combiner a = combiner b.

(** Two table groups that the constructor cannot tell apart. *)
Definition same_table_group (a b : GroupedTableParam) : Prop :=
  table_placement_strategy a = table_placement_strategy b /\
  forall t, In t (table_ids a) <-> In t (table_ids b).

(** The combiner fits the embedding type of a group. *)
Definition fits (ty : EmbeddingType) (c : Combiner) : Prop :=
  match ty with
  | Sparse => c = Combiner.Sum \/ c = Combiner.Average
  | Dense | InfrequentDense | FrequentDense => c = Combiner.Concat
  end.

(** Every entry of the column of the table is 0 or 1. *)
Definition boolean_column (m : list (list Z)) (table_id : Z) : Prop :=
  forall g e, shard_entry m g table_id = Ok e -> e = 0 \/ e = 1.

(** Group [a] comes before group [b]: it belongs to an earlier table group,
    or to the same one and is its Sparse group while [b] is its Dense one. *)
Definition group_before (a b : GroupedLookupParam) : Prop :=
  grouped_table_idx a < grouped_table_idx b \/
  (grouped_table_idx a = grouped_table_idx b /\
   embedding_type a = Sparse /\ embedding_type b = Dense).

(** A list of Sparse groups and of pairs of an InfrequentDense group and a
    FrequentDense group with index -1 and the same lookups and placement. *)
Inductive frequent_pairs : list GroupedLookupParam -> Prop :=
| frequent_pairs_nil : frequent_pairs []
| frequent_pairs_sparse (g : GroupedLookupParam) (gs : list GroupedLookupParam) :
    embedding_type g = Sparse -> frequent_pairs gs -> frequent_pairs (g :: gs)
| frequent_pairs_dense (g g' : GroupedLookupParam) (gs : list GroupedLookupParam) :
    embedding_type g = InfrequentDense -> embedding_type g' = FrequentDense ->
    grouped_table_idx g' = -1 -> lookup_ids g' = lookup_ids g ->
    lookup_table_placement_strategy g' = lookup_table_placement_strategy g ->
    frequent_pairs gs -> frequent_pairs (g :: g' :: gs).

(** The call returned true. *)
Definition returned_true (o : outcome bool) : bool :=
  match o with
  | Ok b => b
  | _ => false
  end.

(** The object with another shard matrix. *)
Definition with_shard_matrix (m : list (list Z)) (p : EmbeddingCollectionParam)
  : EmbeddingCollectionParam :=
  {| num_table := num_table p;
     num_lookup := num_lookup p;
     lookup_params := lookup_params p;
     shard_matrix := m;
     grouped_table_params := grouped_table_params p;
     grouped_lookup_params := grouped_lookup_params p;
     universal_batch_size := universal_batch_size p;
     input_layout_ := input_layout_ p;
     output_layout_ := output_layout_ p;
     sort_strategy_ := sort_strategy_ p;
     keys_preprocess_strategy_ := keys_preprocess_strategy_ p;
     allreduce_strategy_ := allreduce_strategy_ p;
     comm_strategy_ := comm_strategy_ p;
     dense_compression_strategy_ := dense_compression_strategy_ p |}.

(** * Properties *)

(** ** Integers, vectors and [std::find] *)

Lemma int_of_size_t_id (n : Z) : 0 <= n <= INT_MAX -> int_of_size_t n = n.
Proof.
  intros H. unfold int_of_size_t, INT_MAX in *.
  rewrite Z.mod_small; lia.
Qed.

Lemma vec_at_Ok {A : Type} (v : list A) (i : Z) (a : A) :
  vec_at v i = Ok a <-> 0 <= i /\ nth_error v (Z.to_nat i) = Some a.
Proof.
  unfold vec_at. destruct (Z.ltb_spec i 0).
  - split; [discriminate | lia].
  - destruct (nth_error v (Z.to_nat i)) eqn:E; split.
    + intros [= ->]. auto.
    + intros [_ [= ->]]. reflexivity.
    + discriminate.
    + intros [_ [=]].
Qed.

Lemma vec_at_in_range {A : Type} (v : list A) (i : Z) :
  0 <= i < Z.of_nat (length v) -> exists a, vec_at v i = Ok a.
Proof.
  intros H. destruct (nth_error v (Z.to_nat i)) eqn:E.
  - exists a. apply vec_at_Ok. split; [lia | assumption].
  - apply nth_error_None in E. lia.
Qed.

Lemma vec_at_Ok_range {A : Type} (v : list A) (i : Z) (a : A) :
  vec_at v i = Ok a -> 0 <= i < Z.of_nat (length v).
Proof.
  intros H. apply vec_at_Ok in H. destruct H as [H0 H].
  assert (Z.to_nat i < length v)%nat by (apply nth_error_Some; congruence).
  lia.
Qed.

Lemma vec_at_of_nat {A : Type} (v : list A) (i : nat) :
  vec_at v (Z.of_nat i) = match nth_error v i with Some a => Ok a | None => Undefined end.
Proof.
  unfold vec_at. destruct (Z.ltb_spec (Z.of_nat i) 0); [lia |].
  now rewrite Nat2Z.id.
Qed.

Lemma In_counter (n i : Z) : In i (counter n) <-> 0 <= i < n.
Proof.
  unfold counter. rewrite in_map_iff. split.
  - intros [k [<- Hk]]. apply in_seq in Hk. lia.
  - intros H. exists (Z.to_nat i). split; [lia |]. apply in_seq. lia.
Qed.

Lemma counter_in_range {A : Type} (v : list A) (n : Z) :
  n <= Z.of_nat (length v) ->
  forall i, In i (counter n) -> exists a, vec_at v i = Ok a.
Proof.
  intros Hn i Hi. apply In_counter in Hi. apply vec_at_in_range. lia.
Qed.

Lemma std_find_le (v : list Z) (x : Z) : (std_find v x <= length v)%nat.
Proof.
  induction v as [| y v IH]; simpl; [lia |].
  destruct (y =? x); lia.
Qed.

Lemma not_found_iff (v : list Z) (x : Z) : not_found v x = true <-> ~ In x v.
Proof.
  unfold not_found. rewrite Nat.eqb_eq.
  induction v as [| y v IH]; simpl.
  - tauto.
  - destruct (Z.eqb_spec y x) as [-> | Hne].
    + split; [discriminate | tauto].
    + rewrite Nat.succ_inj_wd, IH. tauto.
Qed.

Lemma found_iff (v : list Z) (x : Z) : negb (not_found v x) = true <-> In x v.
Proof.
  rewrite negb_true_iff, <- not_true_iff_false, not_found_iff.
  destruct (in_dec Z.eq_dec x v); tauto.
Qed.

Lemma std_find_nth (v : list Z) (x : Z) :
  (std_find v x < length v)%nat -> nth_error v (std_find v x) = Some x.
Proof.
  induction v as [| y v IH]; simpl; [lia |].
  destruct (Z.eqb_spec y x) as [-> | Hne]; [reflexivity |].
  intros H. apply IH. lia.
Qed.

Lemma std_find_NoDup (v : list Z) (i : nat) (x : Z) :
  NoDup v -> nth_error v i = Some x -> std_find v x = i.
Proof.
  intros Hnd. revert i. induction Hnd as [| y v Hy Hnd IH]; intros i Hi.
  - destruct i; discriminate.
  - destruct i as [| i]; simpl in *.
    + injection Hi as ->. now rewrite Z.eqb_refl.
    + destruct (Z.eqb_spec y x) as [-> | Hne].
      * exfalso. apply Hy. eapply nth_error_In; eauto.
      * f_equal. now apply IH.
Qed.

(** ** Loops *)

Lemma for_each_app {A S : Type} (body : S -> A -> outcome S) (xs ys : list A) (s : S) :
  for_each body (xs ++ ys) s = s' <- for_each body xs s ;; for_each body ys s'.
Proof.
  revert s. induction xs as [| x xs IH]; intros s; simpl; [reflexivity |].
  destruct (body s x); simpl; auto.
Qed.

Lemma for_each_ext {A S : Type} (f g : S -> A -> outcome S) (xs : list A) (s : S) :
  (forall s x, In x xs -> f s x = g s x) -> for_each f xs s = for_each g xs s.
Proof.
  revert s. induction xs as [| x xs IH]; intros s H; simpl; [reflexivity |].
  rewrite H by (left; reflexivity).
  destruct (g s x); simpl; auto.
  apply IH. intros; apply H; right; assumption.
Qed.

(** ** The inner loop: splitting the lookups of a table group *)

Lemma lookup_loop_body_spec (lps : list LookupParam) (tp : GroupedTableParam)
    (sparse dense : list Z) (i : Z) (lp : LookupParam) :
  vec_at lps i = Ok lp ->
  lookup_loop_body lps tp (sparse, dense) i =
  if selects lps tp unsupported i
  then Raise (OwnThrow IllegalCall combiner_not_supported)
  else Ok (sparse ++ (if selects lps tp is_sparse i then [i] else []),
           dense ++ (if selects lps tp is_dense i then [i] else [])).
Proof.
  intros Hlp. unfold lookup_loop_body, selects. rewrite Hlp. simpl.
  unfold in_table_group, unsupported, supported, is_dense, is_sparse, push_back.
  destruct (not_found (table_ids tp) (table_id lp)); simpl.
  - now rewrite !app_nil_r.
  - destruct (combiner lp =? Combiner.Concat) eqn:Ec; simpl.
    + apply Z.eqb_eq in Ec. rewrite Ec. simpl. now rewrite app_nil_r.
    + destruct ((combiner lp =? Combiner.Sum) || (combiner lp =? Combiner.Average));
        simpl; [now rewrite app_nil_r | reflexivity].
Qed.

Lemma lookup_loop_spec (lps : list LookupParam) (tp : GroupedTableParam)
    (ids sparse dense : list Z) :
  (forall i, In i ids -> exists lp, vec_at lps i = Ok lp) ->
  for_each (lookup_loop_body lps tp) ids (sparse, dense) =
  if existsb (selects lps tp unsupported) ids
  then Raise (OwnThrow IllegalCall combiner_not_supported)
  else Ok (sparse ++ filter (selects lps tp is_sparse) ids,
           dense ++ filter (selects lps tp is_dense) ids).
Proof.
  revert sparse dense.
  induction ids as [| i ids IH]; intros sparse dense Hin.
  - simpl. now rewrite !app_nil_r.
  - destruct (Hin i (or_introl eq_refl)) as [lp Hlp].
    cbn [for_each existsb filter].
    rewrite (lookup_loop_body_spec _ _ _ _ _ _ Hlp).
    destruct (selects lps tp unsupported i); simpl; [reflexivity |].
    rewrite IH by (intros j Hj; apply Hin; now right).
    destruct (existsb _ ids); [reflexivity |].
    destruct (selects lps tp is_sparse i), (selects lps tp is_dense i);
      now rewrite <- !app_assoc.
Qed.

Lemma selects_true (lps : list LookupParam) (tp : GroupedTableParam)
    (sel : Combiner -> bool) (l : Z) :
  selects lps tp sel l = true <->
  exists lp, vec_at lps l = Ok lp /\ In (table_id lp) (table_ids tp) /\
             sel (combiner lp) = true.
Proof.
  unfold selects, in_table_group. destruct (vec_at lps l) as [lp | |].
  - rewrite andb_true_iff, found_iff. split.
    + intros [H1 H2]. exists lp. auto.
    + intros [lp' [[= <-] H]]. exact H.
  - split; [discriminate | intros [lp' [[=] _]]].
  - split; [discriminate | intros [lp' [[=] _]]].
Qed.

Lemma In_selected_ids (lps : list LookupParam) (tp : GroupedTableParam)
    (sel : Combiner -> bool) (n l : Z) :
  In l (selected_ids lps tp sel n) <-> 0 <= l < n /\ selects lps tp sel l = true.
Proof. unfold selected_ids. now rewrite filter_In, In_counter. Qed.

(** ** The outer loop *)

Lemma emplace_groups_acc (st : DenseCompressionStrategy) (k : nat)
    (tp : GroupedTableParam) (sparse dense : list Z) (acc : list GroupedLookupParam) :
  emplace_groups st k tp sparse dense acc =
  gs <- emplace_groups st k tp sparse dense [] ;; Ok (acc ++ gs).
Proof.
  unfold emplace_groups, push_back.
  destruct sparse, dense; simpl; rewrite ?app_nil_r; try reflexivity;
    destruct (st =? DenseCompressionStrategy.Unique);
    [| destruct (st =? DenseCompressionStrategy.CacheFrequent) | |
     destruct (st =? DenseCompressionStrategy.CacheFrequent)];
    simpl; rewrite <- ?app_assoc; reflexivity.
Qed.

Lemma group_loop_body_spec (st : DenseCompressionStrategy) (n : Z)
    (lps : list LookupParam) (acc : list GroupedLookupParam) (k : nat)
    (tp : GroupedTableParam) :
  n <= Z.of_nat (length lps) ->
  group_loop_body st n lps acc (k, tp) =
  if existsb (selects lps tp unsupported) (counter n)
  then Raise (OwnThrow IllegalCall combiner_not_supported)
  else emplace_groups st k tp (selected_ids lps tp is_sparse n)
         (selected_ids lps tp is_dense n) acc.
Proof.
  intros Hn. unfold group_loop_body.
  rewrite lookup_loop_spec by now apply counter_in_range.
  destruct (existsb _ _); reflexivity.
Qed.

Lemma group_loop_body_acc (st : DenseCompressionStrategy) (n : Z)
    (lps : list LookupParam) (acc : list GroupedLookupParam)
    (it : nat * GroupedTableParam) :
  group_loop_body st n lps acc it =
  gs <- group_loop_body st n lps [] it ;; Ok (acc ++ gs).
Proof.
  destruct it as [k tp]. unfold group_loop_body.
  destruct (for_each _ _ _) as [[s d] | |]; simpl; auto.
  apply emplace_groups_acc.
Qed.

Lemma group_loop_acc (st : DenseCompressionStrategy) (n : Z)
    (lps : list LookupParam) (its : list (nat * GroupedTableParam))
    (acc : list GroupedLookupParam) :
  for_each (group_loop_body st n lps) its acc =
  gs <- for_each (group_loop_body st n lps) its [] ;; Ok (acc ++ gs).
Proof.
  revert acc. induction its as [| it its IH]; intros acc; simpl.
  - now rewrite app_nil_r.
  - rewrite group_loop_body_acc.
    destruct (group_loop_body st n lps [] it) as [g | |]; simpl; auto.
    rewrite (IH (acc ++ g)), (IH g).
    destruct (for_each _ its []); simpl; auto.
    now rewrite app_assoc.
Qed.

(** One more table group at the front: its groups, then the others'. *)
Lemma group_loop_cons (st : DenseCompressionStrategy) (n : Z)
    (lps : list LookupParam) (it : nat * GroupedTableParam)
    (its : list (nat * GroupedTableParam)) :
  for_each (group_loop_body st n lps) (it :: its) [] =
  g <- group_loop_body st n lps [] it ;;
  gs <- for_each (group_loop_body st n lps) its [] ;; Ok (g ++ gs).
Proof.
  simpl. destruct (group_loop_body st n lps [] it) as [g | |]; simpl; auto.
  apply group_loop_acc.
Qed.

(** ** When the constructor throws *)

Lemma unsupported_iff (c : Combiner) : unsupported c = true <-> other_combiner c.
Proof.
  unfold unsupported, supported, is_dense, is_sparse, other_combiner.
  rewrite negb_true_iff, !orb_false_iff, !Z.eqb_neq. tauto.
Qed.

Lemma is_dense_iff (c : Combiner) : is_dense c = true <-> Combiner.Concat = c.
Proof. unfold is_dense. rewrite Z.eqb_eq. split; congruence. Qed.

Lemma existsb_selects (n : Z) (lps : list LookupParam) (tp : GroupedTableParam)
    (sel : Combiner -> bool) (P : Combiner -> Prop) :
  (forall c, sel c = true <-> P c) ->
  existsb (selects lps tp sel) (counter n) = true <-> has_lookup n lps P tp.
Proof.
  intros HP. rewrite existsb_exists. unfold has_lookup. split.
  - intros [l [Hl Hs]]. apply In_counter in Hl. apply selects_true in Hs.
    destruct Hs as [lp [H1 [H2 H3]]]. exists l, lp. rewrite <- HP. auto.
  - intros [l [lp [Hl [H1 [H2 H3]]]]]. exists l. split; [now apply In_counter |].
    apply selects_true. exists lp. rewrite HP. auto.
Qed.

Lemma selected_ids_nil (n : Z) (lps : list LookupParam) (tp : GroupedTableParam)
    (sel : Combiner -> bool) :
  selected_ids lps tp sel n = [] <-> existsb (selects lps tp sel) (counter n) = false.
Proof.
  unfold selected_ids. induction (counter n) as [| i ids IH]; simpl; [tauto |].
  destruct (selects lps tp sel i); simpl; [| exact IH].
  split; discriminate.
Qed.

Lemma strategy_cases (st : DenseCompressionStrategy) :
  {st = DenseCompressionStrategy.Unique} +
  {st = DenseCompressionStrategy.CacheFrequent} + {other_strategy st}.
Proof.
  destruct (Z.eq_dec st DenseCompressionStrategy.Unique) as [H1 | H1]; [auto |].
  destruct (Z.eq_dec st DenseCompressionStrategy.CacheFrequent) as [H2 | H2]; [auto |].
  right. split; assumption.
Qed.

Lemma emplace_groups_throws (st : DenseCompressionStrategy) (k : nat)
    (tp : GroupedTableParam) (sparse dense : list Z) (acc : list GroupedLookupParam) :
  dense <> [] -> other_strategy st ->
  emplace_groups st k tp sparse dense acc =
  Raise (OwnThrow IllegalCall dense_compression_strategy_not_supported).
Proof.
  intros Hd [H1 H2]. unfold emplace_groups.
  destruct dense; [congruence |].
  apply Z.eqb_neq in H1, H2. now rewrite H1, H2.
Qed.

Lemma emplace_groups_returns (st : DenseCompressionStrategy) (k : nat)
    (tp : GroupedTableParam) (sparse dense : list Z) (acc : list GroupedLookupParam) :
  dense = [] \/ ~ other_strategy st ->
  exists gs, emplace_groups st k tp sparse dense acc = Ok gs.
Proof.
  intros H. unfold emplace_groups. destruct dense as [| d dense]; [eauto |].
  destruct H as [H | H]; [discriminate |].
  destruct (strategy_cases st) as [[-> | ->] | Ho]; simpl; eauto. tauto.
Qed.

Lemma group_loop_body_outcome (st : DenseCompressionStrategy) (n : Z)
    (lps : list LookupParam) (acc : list GroupedLookupParam) (k : nat)
    (tp : GroupedTableParam) :
  n <= Z.of_nat (length lps) ->
  (group_rejected st n lps tp /\
   throws_IllegalCall (group_loop_body st n lps acc (k, tp))) \/
  (~ group_rejected st n lps tp /\
   exists gs, group_loop_body st n lps acc (k, tp) = Ok gs).
Proof.
  intros Hn. rewrite group_loop_body_spec by assumption.
  unfold group_rejected, throws_IllegalCall.
  rewrite <- (existsb_selects _ _ _ _ _ unsupported_iff).
  rewrite <- (existsb_selects _ _ _ _ _ is_dense_iff).
  destruct (existsb (selects lps tp unsupported) (counter n)); [left; eauto |].
  destruct (existsb (selects lps tp is_dense) (counter n)) eqn:Ed.
  - destruct (strategy_cases st) as [Hs | Ho].
    + right. split.
      * unfold other_strategy. intros [H | [_ H]]; [discriminate |].
        destruct Hs; tauto.
      * apply emplace_groups_returns. right. unfold other_strategy.
        destruct Hs; tauto.
    + left. split; [auto |].
      rewrite emplace_groups_throws; eauto.
      rewrite selected_ids_nil. congruence.
  - right. split; [intros [H | [H _]]; discriminate |].
    apply emplace_groups_returns. left. now apply selected_ids_nil.
Qed.

Lemma group_loop_outcome (st : DenseCompressionStrategy) (n : Z)
    (lps : list LookupParam) (its : list (nat * GroupedTableParam))
    (acc : list GroupedLookupParam) :
  n <= Z.of_nat (length lps) ->
  (Exists (group_rejected st n lps) (map snd its) /\
   throws_IllegalCall (for_each (group_loop_body st n lps) its acc)) \/
  (Forall (fun tp => ~ group_rejected st n lps tp) (map snd its) /\
   exists gs, for_each (group_loop_body st n lps) its acc = Ok gs).
Proof.
  intros Hn. revert acc.
  induction its as [| [k tp] its IH]; intros acc; cbn [for_each map snd].
  - right. split; [constructor | eauto].
  - destruct (group_loop_body_outcome st n lps acc k tp Hn)
      as [[Hr [m Hm]] | [Hr [gs Hgs]]].
    + left. split; [now left |]. rewrite Hm. exists m. reflexivity.
    + rewrite Hgs. cbn [bind].
      destruct (IH gs) as [[He Ht] | [Hf Hok]].
      * left. split; [now right | assumption].
      * right. split; [now constructor | assumption].
Qed.

Lemma map_snd_enumerate {A : Type} (v : list A) : map snd (enumerate v) = v.
Proof.
  unfold enumerate. generalize 0%nat.
  induction v as [| a v IH]; intros k; simpl; [reflexivity |].
  now rewrite IH.
Qed.

Lemma build_outcome (st : DenseCompressionStrategy) (n : Z)
    (lps : list LookupParam) (gtp : list GroupedTableParam) :
  n <= Z.of_nat (length lps) ->
  (Exists (group_rejected st n lps) gtp /\
   throws_IllegalCall (build_grouped_lookup_params st n lps gtp)) \/
  (Forall (fun tp => ~ group_rejected st n lps tp) gtp /\
   exists gs, build_grouped_lookup_params st n lps gtp = Ok gs).
Proof.
  intros Hn. unfold build_grouped_lookup_params.
  rewrite <- (map_snd_enumerate gtp) at 1 3.
  now apply group_loop_outcome.
Qed.

Lemma build_outcome' (st : DenseCompressionStrategy) (n : Z)
    (lps : list LookupParam) (gtp : list GroupedTableParam) :
  n <= Z.of_nat (length lps) ->
  (Exists (group_rejected st n lps) gtp /\
   throws_IllegalCall (build_grouped_lookup_params st n lps gtp)) \/
  (~ Exists (group_rejected st n lps) gtp /\
   exists gs, build_grouped_lookup_params st n lps gtp = Ok gs).
Proof.
  intros Hn. destruct (build_outcome st n lps gtp Hn) as [H | [Hf Hok]]; [now left |].
  right. split; [| assumption].
  rewrite Forall_forall in Hf. rewrite Exists_exists.
  intros [tp [Hin Hr]]. exact (Hf tp Hin Hr).
Qed.

(** ** Counting the groups of a lookup *)

Lemma groups_containing_app (a b : list GroupedLookupParam) (l : Z) :
  groups_containing (a ++ b) l = (groups_containing a l + groups_containing b l)%nat.
Proof. unfold groups_containing. now rewrite filter_app, length_app. Qed.

Lemma groups_containing_zero (gs : list GroupedLookupParam) (l : Z) :
  groups_containing gs l = 0%nat <-> forall g, In g gs -> ~ In l (lookup_ids g).
Proof.
  unfold groups_containing. rewrite length_zero_iff_nil. split.
  - intros H g Hg Hl. apply found_iff in Hl.
    assert (Hf : In g (filter (fun g => negb (not_found (lookup_ids g) l)) gs))
      by (apply filter_In; auto).
    rewrite H in Hf. exact Hf.
  - intros H. induction gs as [| g gs IH]; simpl; [reflexivity |].
    destruct (negb (not_found (lookup_ids g) l)) eqn:E.
    + apply found_iff in E. exfalso. apply (H g); simpl; auto.
    + apply IH. intros g' Hg'. apply H. now right.
Qed.

Lemma table_groups_containing_zero (gtp : list GroupedTableParam) (t : Z) :
  (forall tp, In tp gtp -> ~ In t (table_ids tp)) ->
  table_groups_containing gtp t = 0%nat.
Proof.
  unfold table_groups_containing. intros H.
  induction gtp as [| tp gtp IH]; simpl; [reflexivity |].
  assert (Hnf : not_found (table_ids tp) t = true)
    by (apply not_found_iff, H; now left).
  rewrite Hnf. simpl. apply IH. intros tp' Htp'. apply H. now right.
Qed.

(** What [emplace_groups] appends under the Unique strategy. *)
Lemma emplace_groups_Unique (k : nat) (tp : GroupedTableParam)
    (sparse dense : list Z) (l : Z) :
  exists gs,
    emplace_groups DenseCompressionStrategy.Unique k tp sparse dense [] = Ok gs /\
    groups_containing gs l =
    ((if negb (not_found sparse l) then 1 else 0) +
     (if negb (not_found dense l) then 1 else 0))%nat /\
    Forall (fun g => lookup_ids g <> []) gs.
Proof.
  unfold emplace_groups, groups_containing, push_back.
  destruct sparse as [| s sparse], dense as [| d dense]; simpl;
    eexists; (split; [reflexivity |]); simpl.
  - split; [reflexivity | constructor].
  - split; [| repeat constructor; discriminate].
    destruct (negb (not_found (d :: dense) l)); reflexivity.
  - split; [| repeat constructor; discriminate].
    destruct (negb (not_found (s :: sparse) l)); reflexivity.
  - split; [| repeat constructor; discriminate].
    destruct (negb (not_found (s :: sparse) l)),
             (negb (not_found (d :: dense) l)); reflexivity.
Qed.

Lemma found_selected_ids (lps : list LookupParam) (tp : GroupedTableParam)
    (sel : Combiner -> bool) (n l : Z) :
  0 <= l < n ->
  negb (not_found (selected_ids lps tp sel n) l) = selects lps tp sel l.
Proof.
  intros Hl. apply eq_true_iff_eq. rewrite found_iff, In_selected_ids. tauto.
Qed.

Lemma group_count_Unique (n : Z) (lps : list LookupParam) (k : nat)
    (tp : GroupedTableParam) (gs : list GroupedLookupParam) (l : Z) (lp : LookupParam) :
  n <= Z.of_nat (length lps) ->
  group_loop_body DenseCompressionStrategy.Unique n lps [] (k, tp) = Ok gs ->
  0 <= l < n -> vec_at lps l = Ok lp ->
  groups_containing gs l = if in_table_group tp lp then 1%nat else 0%nat.
Proof.
  intros Hn Hgs Hl Hlp. rewrite group_loop_body_spec in Hgs by assumption.
  destruct (existsb _ _) eqn:Eb; [discriminate |].
  destruct (emplace_groups_Unique k tp (selected_ids lps tp is_sparse n)
              (selected_ids lps tp is_dense n) l) as [gs' [H1 [H2 _]]].
  rewrite H1 in Hgs. injection Hgs as <-. rewrite H2.
  rewrite !found_selected_ids by assumption.
  assert (Hu : selects lps tp unsupported l = false).
  { destruct (selects lps tp unsupported l) eqn:E; [| reflexivity].
    rewrite <- Eb. symmetry. apply existsb_exists. exists l.
    split; [now apply In_counter | assumption]. }
  revert Hu. unfold selects. rewrite Hlp.
  unfold unsupported, supported, is_dense, is_sparse.
  destruct (in_table_group tp lp); simpl; [| reflexivity].
  destruct (Z.eqb_spec (combiner lp) Combiner.Concat) as [-> | Hc]; simpl;
    [reflexivity |].
  rewrite negb_false_iff. now intros ->.
Qed.

Lemma group_loop_count_Unique (n : Z) (lps : list LookupParam)
    (its : list (nat * GroupedTableParam)) (gs : list GroupedLookupParam)
    (l : Z) (lp : LookupParam) :
  n <= Z.of_nat (length lps) ->
  for_each (group_loop_body DenseCompressionStrategy.Unique n lps) its [] = Ok gs ->
  0 <= l < n -> vec_at lps l = Ok lp ->
  groups_containing gs l = table_groups_containing (map snd its) (table_id lp).
Proof.
  intros Hn Hgs Hl Hlp. revert gs Hgs.
  induction its as [| [k tp] its IH]; intros gs Hgs.
  - injection Hgs as <-. reflexivity.
  - rewrite group_loop_cons in Hgs.
    destruct (group_loop_body _ n lps [] (k, tp)) as [g | |] eqn:Eg;
      try discriminate.
    cbn [bind] in Hgs.
    destruct (for_each _ its []) as [gs' | |]; try discriminate.
    injection Hgs as <-.
    rewrite groups_containing_app, (IH gs' eq_refl).
    rewrite (group_count_Unique n lps k tp g l lp Hn Eg Hl Hlp).
    unfold table_groups_containing, in_table_group. cbn [map snd filter].
    destruct (negb (not_found (table_ids tp) (table_id lp))); reflexivity.
Qed.

Lemma build_count_Unique (n : Z) (lps : list LookupParam)
    (gtp : list GroupedTableParam) (gs : list GroupedLookupParam)
    (l : Z) (lp : LookupParam) :
  n <= Z.of_nat (length lps) ->
  build_grouped_lookup_params DenseCompressionStrategy.Unique n lps gtp = Ok gs ->
  0 <= l < n -> vec_at lps l = Ok lp ->
  groups_containing gs l = table_groups_containing gtp (table_id lp).
Proof.
  intros Hn Hgs Hl Hlp. unfold build_grouped_lookup_params in Hgs.
  rewrite (group_loop_count_Unique n lps _ gs l lp Hn Hgs Hl Hlp).
  now rewrite map_snd_enumerate.
Qed.

(** A filter that keeps one element keeps it at one position. *)
Lemma filter_one {A : Type} (f : A -> bool) (v : list A) :
  length (filter f v) = 1%nat ->
  exists i a, nth_error v i = Some a /\ f a = true /\
    forall j b, nth_error v j = Some b -> f b = true -> j = i.
Proof.
  induction v as [| x v IH]; simpl; [discriminate |].
  destruct (f x) eqn:Ex; simpl.
  - intros H. injection H as H. apply length_zero_iff_nil in H.
    exists 0%nat, x. repeat split; auto.
    intros [| j] b Hj Hb; [reflexivity |]. simpl in Hj.
    assert (Hin : In b (filter f v)) by (apply filter_In; split; [eapply nth_error_In |]; eauto).
    rewrite H in Hin. destruct Hin.
  - intros H. destruct (IH H) as [i [a [H1 [H2 H3]]]].
    exists (S i), a. repeat split; auto.
    intros [| j] b Hj Hb; simpl in Hj.
    + injection Hj as ->. congruence.
    + f_equal. eauto.
Qed.

Lemma lookup_id_in_group_true (p : EmbeddingCollectionParam) (g l : Z) :
  lookup_id_in_group p g l = Ok true <->
  0 <= g /\ exists grp, nth_error (grouped_lookup_params p) (Z.to_nat g) = Some grp /\
                        negb (not_found (lookup_ids grp) l) = true.
Proof.
  unfold lookup_id_in_group.
  destruct (vec_at (grouped_lookup_params p) g) as [grp | |] eqn:E; simpl.
  - apply vec_at_Ok in E. destruct E as [E0 E]. split.
    + intros [= H]. eauto.
    + intros [_ [grp' [H1 H2]]]. congruence.
  - split; [discriminate |]. intros [H0 [grp [H1 H2]]].
    assert (vec_at (grouped_lookup_params p) g = Ok grp) by (apply vec_at_Ok; auto).
    congruence.
  - split; [discriminate |]. intros [H0 [grp [H1 H2]]].
    assert (vec_at (grouped_lookup_params p) g = Ok grp) by (apply vec_at_Ok; auto).
    congruence.
Qed.

(** ** Table groups without lookups, lookups without table group *)

Lemma emplace_groups_nonempty (st : DenseCompressionStrategy) (k : nat)
    (tp : GroupedTableParam) (sparse dense : list Z) (gs : list GroupedLookupParam) :
  emplace_groups st k tp sparse dense [] = Ok gs ->
  Forall (fun g => lookup_ids g <> []) gs.
Proof.
  unfold emplace_groups, push_back.
  destruct sparse as [| s sparse], dense as [| d dense]; simpl;
    try (intros [= <-]; repeat constructor; discriminate);
    destruct (st =? DenseCompressionStrategy.Unique);
    try (intros [= <-]; repeat constructor; discriminate);
    destruct (st =? DenseCompressionStrategy.CacheFrequent);
    try (intros [= <-]; repeat constructor; discriminate);
    discriminate.
Qed.

Lemma group_loop_nonempty (st : DenseCompressionStrategy) (n : Z)
    (lps : list LookupParam) (its : list (nat * GroupedTableParam))
    (gs : list GroupedLookupParam) :
  for_each (group_loop_body st n lps) its [] = Ok gs ->
  Forall (fun g => lookup_ids g <> []) gs.
Proof.
  revert gs. induction its as [| [k tp] its IH]; intros gs Hgs.
  - injection Hgs as <-. constructor.
  - rewrite group_loop_cons in Hgs.
    destruct (group_loop_body st n lps [] (k, tp)) as [g | |] eqn:Eg;
      try discriminate.
    cbn [bind] in Hgs.
    destruct (for_each _ its []) as [gs' | |]; try discriminate.
    injection Hgs as <-. apply Forall_app. split; [| now apply IH].
    unfold group_loop_body in Eg.
    destruct (for_each _ (counter n) _) as [[s d] | |]; try discriminate.
    eapply emplace_groups_nonempty; eauto.
Qed.

Lemma no_lookup_selected (n : Z) (lps : list LookupParam) (tp : GroupedTableParam)
    (sel : Combiner -> bool) :
  ~ has_lookup n lps (fun _ => True) tp -> selected_ids lps tp sel n = [].
Proof.
  intros H. apply selected_ids_nil. apply not_true_iff_false. intros He.
  apply existsb_exists in He. destruct He as [l [Hl Hs]].
  apply In_counter in Hl. apply selects_true in Hs.
  destruct Hs as [lp [H1 [H2 _]]]. apply H. exists l, lp. auto.
Qed.

(** The iteration of the outer loop for a table group without lookups
    changes nothing and throws nothing. *)
Lemma group_loop_body_no_lookup (st : DenseCompressionStrategy) (n : Z)
    (lps : list LookupParam) (acc : list GroupedLookupParam) (k : nat)
    (tp : GroupedTableParam) :
  n <= Z.of_nat (length lps) ->
  ~ has_lookup n lps (fun _ => True) tp ->
  group_loop_body st n lps acc (k, tp) = Ok acc.
Proof.
  intros Hn H. rewrite group_loop_body_spec by assumption.
  rewrite !no_lookup_selected by assumption.
  assert (E : existsb (selects lps tp unsupported) (counter n) = false)
    by (apply selected_ids_nil; now apply no_lookup_selected).
  now rewrite E.
Qed.

Lemma combine_seq_snoc {A : Type} (v : list A) (a : A) (k : nat) :
  combine (seq k (length (v ++ [a]))) (v ++ [a]) =
  combine (seq k (length v)) v ++ [((k + length v)%nat, a)].
Proof.
  revert k. induction v as [| x v IH]; intros k; simpl.
  - now rewrite Nat.add_0_r.
  - rewrite IH. now rewrite Nat.add_succ_comm.
Qed.

Lemma enumerate_snoc {A : Type} (v : list A) (a : A) :
  enumerate (v ++ [a]) = enumerate v ++ [(length v, a)].
Proof. unfold enumerate. now rewrite combine_seq_snoc. Qed.

Lemma build_snoc_no_lookup (st : DenseCompressionStrategy) (n : Z)
    (lps : list LookupParam) (gtp : list GroupedTableParam) (tp : GroupedTableParam) :
  n <= Z.of_nat (length lps) ->
  ~ has_lookup n lps (fun _ => True) tp ->
  build_grouped_lookup_params st n lps (gtp ++ [tp]) =
  build_grouped_lookup_params st n lps gtp.
Proof.
  intros Hn H. unfold build_grouped_lookup_params.
  rewrite enumerate_snoc, for_each_app.
  destruct (for_each _ (enumerate gtp) []) as [gs | |]; cbn [bind for_each]; auto.
  now rewrite group_loop_body_no_lookup.
Qed.

Lemma nth_error_set_nth {A : Type} (v : list A) (i j : nat) (a : A) :
  (i < length v)%nat ->
  nth_error (set_nth v i a) j = if Nat.eqb j i then Some a else nth_error v j.
Proof.
  unfold set_nth. revert i j. induction v as [| x v IH]; intros i j Hi; simpl in Hi.
  - lia.
  - destruct i as [| i]; simpl.
    + destruct j; reflexivity.
    + destruct j as [| j]; simpl; [reflexivity |].
      apply IH. lia.
Qed.

Lemma vec_at_set_nth {A : Type} (v : list A) (l i : Z) (a b : A) :
  vec_at v l = Ok b ->
  vec_at (set_nth v (Z.to_nat l) a) i = if i =? l then Ok a else vec_at v i.
Proof.
  intros Hl. assert (Hr := vec_at_Ok_range _ _ _ Hl).
  unfold vec_at. destruct (Z.ltb_spec i 0).
  - destruct (Z.eqb_spec i l); [lia | reflexivity].
  - rewrite nth_error_set_nth by lia.
    destruct (Z.eqb_spec i l) as [-> | Hne].
    + now rewrite Nat.eqb_refl.
    + destruct (Nat.eqb_spec (Z.to_nat i) (Z.to_nat l)); [lia | reflexivity].
Qed.

(** The combiner of a lookup outside the table group is not looked at. *)
Lemma lookup_loop_body_combiner (lps : list LookupParam) (tp : GroupedTableParam)
    (l : Z) (lp : LookupParam) (c : Combiner) (s : list Z * list Z) (i : Z) :
  vec_at lps l = Ok lp -> ~ In (table_id lp) (table_ids tp) ->
  lookup_loop_body (set_nth lps (Z.to_nat l) (with_combiner c lp)) tp s i =
  lookup_loop_body lps tp s i.
Proof.
  intros Hl Hn. unfold lookup_loop_body. destruct s as [sp de].
  rewrite (vec_at_set_nth _ _ _ _ _ Hl).
  destruct (Z.eqb_spec i l) as [-> | Hne]; [| reflexivity].
  rewrite Hl. simpl. apply not_found_iff in Hn. now rewrite Hn.
Qed.

Lemma build_combiner (st : DenseCompressionStrategy) (n : Z)
    (lps : list LookupParam) (gtp : list GroupedTableParam)
    (l : Z) (lp : LookupParam) (c : Combiner) :
  vec_at lps l = Ok lp ->
  (forall tp, In tp gtp -> ~ In (table_id lp) (table_ids tp)) ->
  build_grouped_lookup_params st n (set_nth lps (Z.to_nat l) (with_combiner c lp)) gtp =
  build_grouped_lookup_params st n lps gtp.
Proof.
  intros Hl Hn. unfold build_grouped_lookup_params.
  apply for_each_ext. intros acc [k tp] Hin.
  assert (Htp : In tp gtp) by (eapply in_combine_r; exact Hin).
  unfold group_loop_body. f_equal.
  apply for_each_ext. intros s i _.
  apply lookup_loop_body_combiner; auto.
Qed.

Lemma groups_of_new (num_table n : Z) (lps : list LookupParam) (m : list (list Z))
    (gtp : list GroupedTableParam) (batch : Z) (li lo : EmbeddingLayout)
    (so : SortStrategy) (kp : KeysPreprocessStrategy) (ar : AllreduceStrategy)
    (co : CommunicationStrategy) :
  groups_of (EmbeddingCollectionParam_new num_table n lps m gtp batch li lo so kp ar co) =
  build_grouped_lookup_params DenseCompressionStrategy.Unique n lps gtp.
Proof.
  unfold groups_of, EmbeddingCollectionParam_new.
  destruct (build_grouped_lookup_params _ n lps gtp); reflexivity.
Qed.

Lemma groups_of_throws (o : outcome EmbeddingCollectionParam) :
  throws_IllegalCall o <-> throws_IllegalCall (groups_of o).
Proof.
  unfold throws_IllegalCall, groups_of.
  destruct o; simpl; split; intros [m H]; try discriminate;
    injection H as ->; eauto.
Qed.

Lemma groups_of_returns (o : outcome EmbeddingCollectionParam) :
  (exists p, o = Ok p) <-> (exists gs, groups_of o = Ok gs).
Proof.
  unfold groups_of.
  destruct o; simpl; split; intros [m H]; try discriminate; eauto.
Qed.

Lemma Exists_group_rejected (st : DenseCompressionStrategy) (n : Z)
    (lps : list LookupParam) (gtp : list GroupedTableParam) :
  Exists (group_rejected st n lps) gtp <->
  Exists (has_lookup n lps other_combiner) gtp \/
  (Exists (has_lookup n lps (eq Combiner.Concat)) gtp /\ other_strategy st).
Proof.
  unfold group_rejected. rewrite !Exists_exists. split.
  - intros [tp [Hin [H | [H Ho]]]]; eauto.
  - intros [[tp [Hin H]] | [[tp [Hin H]] Ho]]; eauto.
Qed.

Lemma not_throws_Ok {A : Type} (o : outcome A) (a : A) :
  o = Ok a -> ~ throws_IllegalCall o.
Proof. intros -> [m H]. discriminate. Qed.

Lemma outcome_iff {A : Type} (o : outcome A) (P : Prop) :
  (P /\ throws_IllegalCall o) \/ (~ P /\ exists a, o = Ok a) ->
  (throws_IllegalCall o <-> P) /\ ((exists a, o = Ok a) <-> ~ P).
Proof.
  intros [[HP Ht] | [HP [a Ha]]].
  - split; split; try tauto.
    intros [a Ha]. destruct Ht as [m Hm]. congruence.
  - split; split; try tauto; eauto.
    intros Ht. exfalso. eapply not_throws_Ok; eauto.
Qed.

(** ** The constructor *)

Section Constructor.

(** The arguments that the constructor only stores. *)
Variables (tables batch : Z) (matrix : list (list Z)).
Variables (layout_in layout_out : EmbeddingLayout) (sort : SortStrategy).
Variables (preprocess : KeysPreprocessStrategy) (allreduce : AllreduceStrategy).
Variable comm : CommunicationStrategy.

Local Abbreviation new n lps gtp :=
  (EmbeddingCollectionParam_new tables n lps matrix gtp batch layout_in
     layout_out sort preprocess allreduce comm).

Lemma new_Ok (n : Z) (lps : list LookupParam) (gtp : list GroupedTableParam)
    (p : EmbeddingCollectionParam) :
  new n lps gtp = Ok p ->
  build_grouped_lookup_params DenseCompressionStrategy.Unique n lps gtp =
    Ok (grouped_lookup_params p) /\
  lookup_params p = lps /\ shard_matrix p = matrix /\
  dense_compression_strategy_ p = DenseCompressionStrategy.Unique.
Proof.
  unfold EmbeddingCollectionParam_new.
  destruct (build_grouped_lookup_params _ n lps gtp); simpl; try discriminate.
  intros [= <-]. simpl. auto.
Qed.

Lemma new_outcome (n : Z) (lps : list LookupParam) (gtp : list GroupedTableParam) :
  n <= Z.of_nat (length lps) ->
  (Exists (has_lookup n lps other_combiner) gtp /\
   throws_IllegalCall (new n lps gtp)) \/
  (~ Exists (has_lookup n lps other_combiner) gtp /\
   exists p, new n lps gtp = Ok p).
Proof.
  intros Hn.
  destruct (build_outcome DenseCompressionStrategy.Unique n lps gtp Hn)
    as [[He Ht] | [Hf Hok]].
  - left. apply Exists_group_rejected in He.
    destruct He as [He | [_ [Hu _]]]; [| congruence].
    split; [assumption |].
    apply groups_of_throws. now rewrite groups_of_new.
  - right. split.
    + intros He. rewrite Forall_forall in Hf. apply Exists_exists in He.
      destruct He as [tp [Hin Hh]]. apply (Hf tp Hin). now left.
    + apply groups_of_returns. now rewrite groups_of_new.
Qed.

(** C1 (as amended).  When construction succeeds, every lookup id whose
    table belongs to exactly one table group appears in the [lookup_ids]
    of exactly one produced group: the number of groups that contain it
    is one, and [lookup_id_in_group] holds for one group index only.  A
    lookup id whose table belongs to no table group appears in the
    [lookup_ids] of no produced group. *)
Theorem lookup_in_exactly_one_group (n : Z) (lps : list LookupParam)
    (gtp : list GroupedTableParam) (p : EmbeddingCollectionParam)
    (l : Z) (lp : LookupParam) :
  n <= Z.of_nat (length lps) ->
  new n lps gtp = Ok p ->
  0 <= l < n -> vec_at lps l = Ok lp ->
  (table_groups_containing gtp (table_id lp) = 1%nat ->
   groups_containing (grouped_lookup_params p) l = 1%nat /\
   exists g, lookup_id_in_group p g l = Ok true /\
             forall g', lookup_id_in_group p g' l = Ok true -> g' = g) /\
  (table_groups_containing gtp (table_id lp) = 0%nat ->
   groups_containing (grouped_lookup_params p) l = 0%nat /\
   (forall grp, In grp (grouped_lookup_params p) -> ~ In l (lookup_ids grp)) /\
   forall g, lookup_id_in_group p g l <> Ok true).
Proof.
  intros Hn Hp Hl Hlp. apply new_Ok in Hp. destruct Hp as [Hb _].
  assert (Hc := build_count_Unique n lps gtp _ l lp Hn Hb Hl Hlp).
  split; intros Hcount; rewrite Hcount in Hc.
  - split; [assumption |].
    destruct (filter_one _ _ Hc) as [i [grp [H1 [H2 H3]]]].
    exists (Z.of_nat i). split.
    + apply lookup_id_in_group_true. split; [lia |].
      exists grp. now rewrite Nat2Z.id.
    + intros g' Hg'. apply lookup_id_in_group_true in Hg'.
      destruct Hg' as [H0 [grp' [H1' H2']]].
      rewrite <- (H3 _ _ H1' H2'). lia.
  - split; [assumption |].
    assert (Hnone := proj1 (groups_containing_zero _ _) Hc).
    split; [exact Hnone |].
    intros g Hg. apply lookup_id_in_group_true in Hg.
    destruct Hg as [_ [grp [Hgrp Hf]]]. apply found_iff in Hf.
    exact (Hnone grp (nth_error_In _ _ Hgrp) Hf).
Qed.

(** C6.  Construction throws (the [IllegalCall] error of [HCTR_OWN_THROW])
    if and only if some lookup whose table belongs to a table group has a
    combiner other than Sum, Average and Concat, or some table group has a
    Concat lookup while the dense compression strategy is neither Unique
    nor CacheFrequent; otherwise it returns.  This holds for the
    constructor body under every value [st] of the member it reads; the
    constructor itself runs the body with Unique, so it throws exactly in
    the first case and returns an object otherwise. *)
Theorem construction_throws_iff (st : DenseCompressionStrategy) (n : Z)
    (lps : list LookupParam) (gtp : list GroupedTableParam) :
  n <= Z.of_nat (length lps) ->
  (throws_IllegalCall (build_grouped_lookup_params st n lps gtp) <->
     Exists (has_lookup n lps other_combiner) gtp \/
     (Exists (has_lookup n lps (eq Combiner.Concat)) gtp /\ other_strategy st)) /\
  ((exists gs, build_grouped_lookup_params st n lps gtp = Ok gs) <->
     ~ (Exists (has_lookup n lps other_combiner) gtp \/
        (Exists (has_lookup n lps (eq Combiner.Concat)) gtp /\ other_strategy st))) /\
  (throws_IllegalCall (new n lps gtp) <->
     Exists (has_lookup n lps other_combiner) gtp) /\
  ((exists p, new n lps gtp = Ok p) <->
     ~ Exists (has_lookup n lps other_combiner) gtp).
Proof.
  intros Hn. rewrite <- Exists_group_rejected.
  destruct (outcome_iff _ _ (build_outcome' st n lps gtp Hn)) as [H1 H2].
  destruct (outcome_iff _ _ (new_outcome n lps gtp Hn)) as [H3 H4].
  auto.
Qed.

(** C8 (as amended).  A table group none of whose tables is referenced by
    a lookup is not rejected: its iteration of the constructor's loop
    leaves [grouped_lookup_params] unchanged and throws nothing, at every
    index and under every strategy, so appending such a table group to a
    configuration changes neither the groups nor the outcome; and every
    group that construction produces has at least one lookup id. *)
Theorem table_group_without_lookups (st : DenseCompressionStrategy) (n : Z)
    (lps : list LookupParam) (tp : GroupedTableParam) :
  n <= Z.of_nat (length lps) ->
  ~ has_lookup n lps (fun _ => True) tp ->
  (forall k acc, group_loop_body st n lps acc (k, tp) = Ok acc) /\
  (forall gtp, groups_of (new n lps (gtp ++ [tp])) = groups_of (new n lps gtp)) /\
  (forall gtp p, new n lps gtp = Ok p ->
     Forall (fun g => lookup_ids g <> []) (grouped_lookup_params p)).
Proof.
  intros Hn Hno. repeat split.
  - intros k acc. now apply group_loop_body_no_lookup.
  - intros gtp. rewrite !groups_of_new. now apply build_snoc_no_lookup.
  - intros gtp p Hp. apply new_Ok in Hp. destruct Hp as [Hb _].
    eapply group_loop_nonempty. exact Hb.
Qed.

(** C10.  A lookup whose table id is in no table group is silently left
    out: its combiner is never looked at (whatever it is, the outcome of
    construction is the same), it appears in the [lookup_ids] of no
    produced group, and construction succeeds as soon as the other
    lookups of the table groups have supported combiners. *)
Theorem lookup_without_table_group (n : Z) (lps : list LookupParam)
    (gtp : list GroupedTableParam) (l : Z) (lp : LookupParam) :
  n <= Z.of_nat (length lps) ->
  0 <= l < n -> vec_at lps l = Ok lp ->
  (forall tp, In tp gtp -> ~ In (table_id lp) (table_ids tp)) ->
  (forall c, groups_of (new n (set_nth lps (Z.to_nat l) (with_combiner c lp)) gtp) =
             groups_of (new n lps gtp)) /\
  (forall p, new n lps gtp = Ok p ->
     forall g, In g (grouped_lookup_params p) -> ~ In l (lookup_ids g)) /\
  ((forall tp l' lp', In tp gtp -> 0 <= l' < n -> l' <> l ->
      vec_at lps l' = Ok lp' -> In (table_id lp') (table_ids tp) ->
      supported (combiner lp') = true) ->
   exists p, new n lps gtp = Ok p).
Proof.
  intros Hn Hl Hlp Hout. repeat split.
  - intros c. rewrite !groups_of_new. now apply build_combiner.
  - intros p Hp. apply new_Ok in Hp. destruct Hp as [Hb _].
    apply groups_containing_zero.
    rewrite (build_count_Unique n lps gtp _ l lp Hn Hb Hl Hlp).
    now apply table_groups_containing_zero.
  - intros Hsup.
    destruct (new_outcome n lps gtp Hn) as [[He _] | [_ Hok]]; [| assumption].
    exfalso. apply Exists_exists in He.
    destruct He as [tp [Htp [l' [lp' [Hl' [Hlp' [Hin Hother]]]]]]].
    apply unsupported_iff in Hother. unfold unsupported in Hother.
    destruct (Z.eq_dec l' l) as [-> | Hne].
    + rewrite Hlp in Hlp'. injection Hlp' as <-. exact (Hout tp Htp Hin).
    + rewrite (Hsup tp l' lp' Htp Hl' Hne Hlp' Hin) in Hother. discriminate.
Qed.

End Constructor.

(** ** The constructor on the example configurations *)

(** Lookup 2 uses table 2, which is in no table group: construction succeeds
    and lookup 2 is in no group, so the partition is not total. *)
Lemma lookup_in_no_group :
  exists p, construct 3 three_lookups four_devices [two_tables] = Ok p /\
            groups_containing (grouped_lookup_params p) 2 = 0%nat /\
            forall g, lookup_id_in_group p g 2 <> Ok true.
Proof.
  eexists. split; [reflexivity |]. split; [reflexivity |].
  intros g H. apply lookup_id_in_group_true in H.
  destruct H as [_ [grp [H1 H2]]]. simpl in H1.
  destruct (Z.to_nat g) as [| [| k]]; simpl in H1;
    [injection H1 as <-; discriminate H2 | injection H1 as <-; discriminate H2 |].
  destruct k; discriminate.
Qed.

Lemma lookup_in_exactly_one_group_witness :
  3 <= Z.of_nat (length three_lookups) /\
  exists p, construct 3 three_lookups four_devices [two_tables; last_table] = Ok p /\
    groups_containing (grouped_lookup_params p) 2 = 1%nat /\
    exists g, lookup_id_in_group p g 2 = Ok true /\
              forall g', lookup_id_in_group p g' 2 = Ok true -> g' = g.
Proof.
  split; [simpl; lia |]. eexists. split; [reflexivity |].
  apply (proj1 (lookup_in_exactly_one_group 3 1024 four_devices FeatureMajor
                  FeatureMajor Radix AddOffset AllreduceDense Uniform 3
                  three_lookups [two_tables; last_table] _ 2
                  (mk_lookup 2 2 Combiner.Concat)
                  ltac:(simpl; lia) eq_refl ltac:(lia) eq_refl)).
  reflexivity.
Defined.

(** C5.  For the table group with three tables, two Concat lookups (0 and
    2) and one Sum lookup (1), under CacheFrequent dense compression, that
    is with the member [dense_compression_strategy_] holding CacheFrequent
    when the constructor's loop runs: the loop emplaces exactly one Sparse
    group with lookup 1, one InfrequentDense group with lookups 0 and 2,
    both with the index of the table group (whatever that index is), and
    one FrequentDense group with index -1 and lookups 0 and 2.  For
    comparison, with the default Unique, which is what the constructor of
    this header runs with, the same table group gives one Sparse group and
    one Dense group, both with the index of the table group. *)
Theorem cache_frequent_split (k : nat) (acc : list GroupedLookupParam) :
  Z.of_nat k <= INT_MAX ->
  group_loop_body DenseCompressionStrategy.CacheFrequent 3 three_lookups acc
    (k, three_tables) =
  Ok (acc ++ [mk_group (Z.of_nat k) [1] Sparse;
              mk_group (Z.of_nat k) [0; 2] InfrequentDense;
              mk_group (-1) [0; 2] FrequentDense]) /\
  build_grouped_lookup_params DenseCompressionStrategy.CacheFrequent 3
    three_lookups [three_tables] =
  Ok [mk_group 0 [1] Sparse; mk_group 0 [0; 2] InfrequentDense;
      mk_group (-1) [0; 2] FrequentDense] /\
  forall m, exists p,
    construct 3 three_lookups m [three_tables] = Ok p /\
    grouped_lookup_params p = [mk_group 0 [1] Sparse; mk_group 0 [0; 2] Dense] /\
    dense_compression_strategy_ p = DenseCompressionStrategy.Unique.
Proof.
  intros Hk. split; [| split].
  - rewrite group_loop_body_spec by (simpl; lia).
    change (existsb (selects three_lookups three_tables unsupported) (counter 3))
      with false.
    change (selected_ids three_lookups three_tables is_sparse 3) with [1].
    change (selected_ids three_lookups three_tables is_dense 3) with [0; 2].
    unfold emplace_groups, push_back, mk_group. cbn [Z.eqb].
    change (DenseCompressionStrategy.CacheFrequent =? DenseCompressionStrategy.Unique)
      with false.
    change (DenseCompressionStrategy.CacheFrequent =? DenseCompressionStrategy.CacheFrequent)
      with true.
    cbv iota. rewrite int_of_size_t_id by lia.
    now rewrite <- !app_assoc.
  - reflexivity.
  - intros m. eexists. split; [reflexivity |]. split; reflexivity.
Qed.

Lemma cache_frequent_split_witness :
  Z.of_nat 1 <= INT_MAX /\
  group_loop_body DenseCompressionStrategy.CacheFrequent 3 three_lookups
    [mk_group 0 [7] Sparse] (1%nat, three_tables) =
  Ok [mk_group 0 [7] Sparse; mk_group 1 [1] Sparse;
      mk_group 1 [0; 2] InfrequentDense; mk_group (-1) [0; 2] FrequentDense].
Proof.
  split; [unfold INT_MAX; simpl; lia |].
  apply (cache_frequent_split 1 [mk_group 0 [7] Sparse]).
  unfold INT_MAX; simpl; lia.
Defined.

Lemma construction_throws_iff_witness :
  3 <= Z.of_nat (length three_lookups) /\
  (throws_IllegalCall (build_grouped_lookup_params 5 3 three_lookups [three_tables]) <->
     Exists (has_lookup 3 three_lookups other_combiner) [three_tables] \/
     (Exists (has_lookup 3 three_lookups (eq Combiner.Concat)) [three_tables] /\
      other_strategy 5)).
Proof.
  split; [simpl; lia |].
  apply (construction_throws_iff 3 1024 four_devices FeatureMajor FeatureMajor
           Radix AddOffset AllreduceDense Uniform 5 3 three_lookups [three_tables]).
  simpl; lia.
Defined.

(** Both errors do occur: a lookup of a grouped table with the combiner 7,
    and a dense lookup under the strategy 5. *)
Example unsupported_combiner_throws :
  construct 1 [mk_lookup 0 0 7] four_devices [three_tables] =
  Raise (OwnThrow IllegalCall combiner_not_supported).
Proof. reflexivity. Qed.

Example unsupported_strategy_throws :
  build_grouped_lookup_params 5 3 three_lookups [three_tables] =
  Raise (OwnThrow IllegalCall dense_compression_strategy_not_supported).
Proof. reflexivity. Qed.

Lemma last_table_has_no_lookup :
  ~ has_lookup 2 two_lookups (fun _ => True) last_table.
Proof.
  intros [l [lp [Hl [Hlp [Hin _]]]]].
  assert (Hc : l = 0 \/ l = 1) by lia.
  destruct Hc as [-> | ->]; injection Hlp as <-; simpl in Hin; lia.
Qed.

(** The table group [last_table] has no lookup among [two_lookups], and
    construction is not rejected. *)
Lemma empty_table_group_accepted :
  ~ has_lookup 2 two_lookups (fun _ => True) last_table /\
  exists p, construct 2 two_lookups four_devices [two_tables; last_table] = Ok p /\
    grouped_lookup_params p = [mk_group 0 [0] Sparse; mk_group 0 [1] Dense].
Proof.
  split; [exact last_table_has_no_lookup |].
  eexists. split; reflexivity.
Qed.

Lemma table_group_without_lookups_witness :
  2 <= Z.of_nat (length two_lookups) /\
  ~ has_lookup 2 two_lookups (fun _ => True) last_table /\
  groups_of (construct 2 two_lookups four_devices ([two_tables] ++ [last_table])) =
  groups_of (construct 2 two_lookups four_devices [two_tables]).
Proof.
  split; [simpl; lia |]. split; [exact last_table_has_no_lookup |].
  apply (table_group_without_lookups 3 1024 four_devices FeatureMajor FeatureMajor
           Radix AddOffset AllreduceDense Uniform DenseCompressionStrategy.Unique
           2 two_lookups last_table).
  - simpl; lia.
  - exact last_table_has_no_lookup.
Defined.

Lemma lookup_without_table_group_witness :
  3 <= Z.of_nat (length three_lookups) /\
  (forall tp, In tp [two_tables] -> ~ In 2 (table_ids tp)) /\
  forall c, groups_of (construct 3 (set_nth three_lookups 2 (mk_lookup 2 2 c))
                         four_devices [two_tables]) =
            groups_of (construct 3 three_lookups four_devices [two_tables]).
Proof.
  assert (H : forall tp, In tp [two_tables] -> ~ In 2 (table_ids tp)).
  { intros tp [<- | []]. simpl. lia. }
  split; [simpl; lia |]. split; [exact H |].
  apply (lookup_without_table_group 3 1024 four_devices FeatureMajor FeatureMajor
           Radix AddOffset AllreduceDense Uniform 3 three_lookups [two_tables]
           2 (mk_lookup 2 2 Combiner.Concat)).
  - simpl; lia.
  - lia.
  - reflexivity.
  - exact H.
Defined.

(** ** The devices of a table *)

Lemma counter_succ (k : nat) :
  counter (Z.of_nat (S k)) = counter (Z.of_nat k) ++ [Z.of_nat k].
Proof.
  unfold counter. rewrite !Nat2Z.id, seq_S, map_app. reflexivity.
Qed.

Lemma counter_sorted (n : Z) : StronglySorted Z.lt (counter n).
Proof.
  unfold counter. generalize 0%nat.
  induction (Z.to_nat n) as [| k IH]; intros start; simpl; constructor.
  - apply IH.
  - apply Forall_forall. intros x Hx. apply in_map_iff in Hx.
    destruct Hx as [j [<- Hj]]. apply in_seq in Hj. lia.
Qed.

Lemma StronglySorted_filter {A : Type} (R : A -> A -> Prop) (f : A -> bool)
    (v : list A) :
  StronglySorted R v -> StronglySorted R (filter f v).
Proof.
  induction 1 as [| a v Hs IH Hf]; simpl; [constructor |].
  destruct (f a); [| assumption].
  constructor; [assumption |].
  rewrite Forall_forall in *. intros x Hx. apply filter_In in Hx. now apply Hf.
Qed.

Lemma StronglySorted_lt_NoDup (v : list Z) : StronglySorted Z.lt v -> NoDup v.
Proof.
  induction 1 as [| a v Hs IH Hf]; constructor; [| assumption].
  intros Hin. rewrite Forall_forall in Hf. specialize (Hf a Hin). lia.
Qed.

Lemma devices_where_sorted (sel : Z -> bool) (m : list (list Z)) (t : Z) :
  StronglySorted Z.lt (devices_where sel m t).
Proof. apply StronglySorted_filter, counter_sorted. Qed.

Lemma In_devices_where (sel : Z -> bool) (m : list (list Z)) (t g : Z) :
  In g (devices_where sel m t) <->
  exists e, shard_entry m g t = Ok e /\ sel e = true.
Proof.
  unfold devices_where. rewrite filter_In, In_counter. split.
  - intros [_ H]. destruct (shard_entry m g t) as [e | |]; try discriminate. eauto.
  - intros [e [He Hs]]. rewrite He. split; [| assumption].
    unfold shard_entry in He.
    destruct (vec_at m g) as [row | |] eqn:Er; try discriminate.
    eapply vec_at_Ok_range; eauto.
Qed.

Lemma In_shard_devices (m : list (list Z)) (t g : Z) :
  In g (shard_devices m t) <-> shard_entry m g t = Ok 1.
Proof.
  unfold shard_devices. rewrite In_devices_where. split.
  - intros [e [He H1]]. apply Z.eqb_eq in H1. congruence.
  - intros H. exists 1. auto.
Qed.

Lemma In_portion_devices (m : list (list Z)) (t g : Z) :
  In g (portion_devices m t) <-> exists e, shard_entry m g t = Ok e /\ e <> 0.
Proof.
  unfold portion_devices. rewrite In_devices_where.
  split; intros [e [He H]]; exists e; split; auto.
  - apply negb_true_iff, Z.eqb_neq in H. assumption.
  - apply negb_true_iff, Z.eqb_neq. assumption.
Qed.

Lemma shard_entry_snoc_old (m : list (list Z)) (row : list Z) (g t : Z) :
  0 <= g < Z.of_nat (length m) ->
  shard_entry (m ++ [row]) g t = shard_entry m g t.
Proof.
  intros Hg. unfold shard_entry, vec_at at 1 3.
  destruct (Z.ltb_spec g 0); [lia |].
  rewrite nth_error_app1 by lia. reflexivity.
Qed.

Lemma shard_entry_snoc_new (m : list (list Z)) (row : list Z) (t : Z) :
  shard_entry (m ++ [row]) (Z.of_nat (length m)) t = vec_at row t.
Proof.
  unfold shard_entry. rewrite vec_at_of_nat.
  rewrite nth_error_app2, Nat.sub_diag by lia. reflexivity.
Qed.

Lemma devices_where_snoc (sel : Z -> bool) (m : list (list Z)) (row : list Z) (t : Z) :
  devices_where sel (m ++ [row]) t =
  devices_where sel m t ++
  match vec_at row t with
  | Ok e => if sel e then [Z.of_nat (length m)] else []
  | _ => []
  end.
Proof.
  unfold devices_where. rewrite length_app. simpl length.
  rewrite Nat.add_1_r, counter_succ, filter_app. f_equal.
  - apply filter_ext_in. intros g Hg. apply In_counter in Hg.
    now rewrite shard_entry_snoc_old.
  - simpl. rewrite shard_entry_snoc_new.
    destruct (vec_at row t) as [e | |]; [destruct (sel e) |  |]; reflexivity.
Qed.

Lemma column_in_range_snoc (m : list (list Z)) (row : list Z) (t : Z) :
  column_in_range (m ++ [row]) t ->
  column_in_range m t /\ exists e, vec_at row t = Ok e.
Proof.
  unfold column_in_range. intros H. apply Forall_app in H.
  destruct H as [H1 H2]. split; [assumption |].
  apply Forall_inv in H2. now apply vec_at_in_range.
Qed.

(** The loop of [get_table_shard_id] collects the devices with entry 1. *)
Lemma shard_loop_spec (m : list (list Z)) (t : Z) :
  column_in_range m t -> Z.of_nat (length m) <= INT_MAX ->
  for_each (shard_loop_body t) (enumerate m) [] = Ok (shard_devices m t).
Proof.
  induction m as [| row m IH] using rev_ind; intros Hc Hm; [reflexivity |].
  apply column_in_range_snoc in Hc. destruct Hc as [Hc [e He]].
  rewrite length_app in Hm. simpl in Hm.
  rewrite enumerate_snoc, for_each_app, IH by (assumption || lia).
  unfold shard_devices. rewrite devices_where_snoc.
  cbn [bind for_each]. unfold shard_loop_body. rewrite He. cbn [bind].
  destruct (e =? 1); [| now rewrite app_nil_r].
  unfold push_back. rewrite int_of_size_t_id by lia. reflexivity.
Qed.

Lemma devices_where_length (sel : Z -> bool) (m : list (list Z)) (t : Z) :
  (length (devices_where sel m t) <= length m)%nat.
Proof.
  unfold devices_where. etransitivity; [apply filter_length_le |].
  unfold counter. now rewrite length_map, length_seq, Nat2Z.id.
Qed.

Lemma get_table_shard_id_spec (p : EmbeddingCollectionParam) (gpu t : Z) :
  column_in_range (shard_matrix p) t ->
  Z.of_nat (length (shard_matrix p)) <= INT_MAX ->
  get_table_shard_id p gpu t =
  let devs := shard_devices (shard_matrix p) t in
  if not_found devs gpu then Raise (CheckHint shard_id_not_found)
  else Ok (Z.of_nat (std_find devs gpu), Z.of_nat (length devs)).
Proof.
  intros Hc Hm. unfold get_table_shard_id. rewrite shard_loop_spec by assumption.
  cbn [bind]. unfold not_found, HCTR_CHECK_HINT.
  assert (Hl := devices_where_length (fun e => e =? 1) (shard_matrix p) t).
  fold shard_devices in Hl.
  assert (Hf := std_find_le (shard_devices (shard_matrix p) t) gpu).
  destruct (Nat.eqb _ _); cbn [negb bind]; [reflexivity |].
  rewrite !int_of_size_t_id by lia. reflexivity.
Qed.

Lemma get_table_shard_id_outcome (p : EmbeddingCollectionParam) (gpu t : Z) :
  column_in_range (shard_matrix p) t ->
  Z.of_nat (length (shard_matrix p)) <= INT_MAX ->
  (shard_entry (shard_matrix p) gpu t <> Ok 1 /\
   get_table_shard_id p gpu t = Raise (CheckHint shard_id_not_found)) \/
  (shard_entry (shard_matrix p) gpu t = Ok 1 /\
   exists r n, get_table_shard_id p gpu t = Ok (r, n)).
Proof.
  intros Hc Hm. rewrite get_table_shard_id_spec by assumption. cbv zeta.
  rewrite <- In_shard_devices.
  destruct (not_found (shard_devices (shard_matrix p) t) gpu) eqn:E.
  - apply not_found_iff in E. left. auto.
  - right. split; [| eauto].
    apply found_iff. now rewrite E.
Qed.

(** A successful query, in terms of the ascending list of shard devices. *)
Lemma get_table_shard_id_Ok (p : EmbeddingCollectionParam) (gpu t r n : Z) :
  column_in_range (shard_matrix p) t ->
  Z.of_nat (length (shard_matrix p)) <= INT_MAX ->
  get_table_shard_id p gpu t = Ok (r, n) <->
  n = Z.of_nat (length (shard_devices (shard_matrix p) t)) /\ 0 <= r /\
  nth_error (shard_devices (shard_matrix p) t) (Z.to_nat r) = Some gpu.
Proof.
  intros Hc Hm. rewrite get_table_shard_id_spec by assumption. cbv zeta.
  set (devs := shard_devices (shard_matrix p) t).
  assert (Hnd : NoDup devs) by apply StronglySorted_lt_NoDup, devices_where_sorted.
  unfold not_found. assert (Hf := std_find_le devs gpu).
  destruct (Nat.eqb_spec (std_find devs gpu) (length devs)) as [He | Hne]; split.
  - discriminate.
  - intros [_ [Hr Hn]]. exfalso.
    assert (Hlt : (Z.to_nat r < length devs)%nat)
      by (apply nth_error_Some; congruence).
    apply (std_find_NoDup _ _ _ Hnd) in Hn. lia.
  - intros [= <- <-]. repeat split; [lia |].
    rewrite Nat2Z.id. apply std_find_nth. lia.
  - intros [-> [Hr Hn]]. apply (std_find_NoDup _ _ _ Hnd) in Hn.
    rewrite Hn. f_equal. f_equal. lia.
Qed.

Lemma filter_length_lt {A : Type} (f g : A -> bool) (v : list A) (a : A) :
  (forall x, In x v -> f x = true -> g x = true) ->
  In a v -> g a = true -> f a = false ->
  (length (filter f v) < length (filter g v))%nat.
Proof.
  intros Hfg Ha Hga Hfa.
  assert (Hle : forall w : list A, (forall x, In x w -> f x = true -> g x = true) ->
                  (length (filter f w) <= length (filter g w))%nat).
  { induction w as [| x w IH]; intros Hw; simpl; [lia |].
    assert (IHw : (length (filter f w) <= length (filter g w))%nat)
      by (apply IH; intros y Hy; apply Hw; now right).
    destruct (f x) eqn:Ef.
    - rewrite (Hw x (or_introl eq_refl) Ef). simpl. lia.
    - destruct (g x); simpl; lia. }
  induction v as [| x v IH]; [destruct Ha |].
  assert (Hv : forall y, In y v -> f y = true -> g y = true)
    by (intros y Hy; apply Hfg; now right).
  simpl. destruct Ha as [-> | Ha].
  - rewrite Hga, Hfa. simpl. specialize (Hle v Hv). lia.
  - specialize (IH Hv Ha). destruct (f x) eqn:Ef.
    + rewrite (Hfg x (or_introl eq_refl) Ef). simpl. lia.
    + destruct (g x); simpl; lia.
Qed.

(** ** The shard queries *)

Example example_param_constructed :
  construct 3 three_lookups four_devices [three_tables] = Ok example_param.
Proof. reflexivity. Qed.

Lemma has_table_shard_unfold (p : EmbeddingCollectionParam) (gpu g l : Z) :
  has_table_shard p gpu g l =
  lp <- vec_at (lookup_params p) l ;;
  e <- shard_entry (shard_matrix p) gpu (table_id lp) ;;
  b <- lookup_id_in_group p g l ;;
  Ok (b && negb (e =? 0)).
Proof.
  unfold has_table_shard, shard_entry.
  destruct (vec_at (lookup_params p) l) as [lp | |]; cbn [bind]; auto.
  destruct (vec_at (shard_matrix p) gpu) as [row | |]; cbn [bind]; auto.
Qed.

(** C2.  For every device, group and lookup, [has_table_shard] returns true
    if and only if [lookup_id_in_group] returns true and the entry of the
    shard matrix for the device and the table of the lookup is not 0; and
    whenever the three indices are within the vectors it returns the
    conjunction of the two, also when the lookup is not in the group or the
    entry is 0. *)
Theorem has_table_shard_iff (p : EmbeddingCollectionParam) (gpu g l : Z) :
  (has_table_shard p gpu g l = Ok true <->
     lookup_id_in_group p g l = Ok true /\
     exists lp e, vec_at (lookup_params p) l = Ok lp /\
                  shard_entry (shard_matrix p) gpu (table_id lp) = Ok e /\ e <> 0) /\
  (forall lp e b,
     vec_at (lookup_params p) l = Ok lp ->
     shard_entry (shard_matrix p) gpu (table_id lp) = Ok e ->
     lookup_id_in_group p g l = Ok b ->
     has_table_shard p gpu g l = Ok (b && negb (e =? 0))).
Proof.
  rewrite has_table_shard_unfold. split.
  - destruct (vec_at (lookup_params p) l) as [lp | |]; cbn [bind];
      [| split; [discriminate | intros [_ [lp' [e' [H _]]]]; discriminate] ..].
    destruct (shard_entry (shard_matrix p) gpu (table_id lp)) as [e | |] eqn:Ee;
      cbn [bind];
      [| split; [discriminate |];
         intros [_ [lp' [e' [Hlp [H _]]]]]; injection Hlp as <-; congruence ..].
    destruct (lookup_id_in_group p g l) as [b | |]; cbn [bind];
      [| split; [discriminate | intros [H _]; discriminate] ..].
    split.
    + intros H. injection H as H. apply andb_true_iff in H. destruct H as [Hb He].
      subst b. split; [reflexivity |]. exists lp, e.
      apply negb_true_iff, Z.eqb_neq in He. auto.
    + intros [Hb [lp' [e' [Hlp [He Hne]]]]].
      injection Hb as ->. injection Hlp as <-.
      rewrite Ee in He. injection He as <-.
      apply Z.eqb_neq in Hne. now rewrite Hne.
  - intros lp e b Hlp He Hb.
    rewrite Hlp. cbn [bind]. rewrite He. cbn [bind]. now rewrite Hb.
Qed.

Lemma has_table_shard_iff_witness :
  vec_at (lookup_params example_param) 1 = Ok (mk_lookup 1 1 Combiner.Sum) /\
  shard_entry (shard_matrix example_param) 0 1 = Ok 0 /\
  lookup_id_in_group example_param 0 1 = Ok true /\
  has_table_shard example_param 0 0 1 = Ok false.
Proof.
  split; [reflexivity |]. split; [reflexivity |]. split; [reflexivity |].
  apply (proj2 (has_table_shard_iff example_param 0 0 1)
           (mk_lookup 1 1 Combiner.Sum) 0 true); reflexivity.
Defined.

(** C3.  For a fixed shard matrix and a table, [get_table_shard_id] depends
    on the matrix only, so repeated queries agree; with [devs] the ascending
    list of the devices whose entry for the table is 1, a query for a device
    returns [(r, n)] exactly when [n] is the length of [devs] and the device
    is at position [r] of [devs]; hence the ranks returned for the devices
    of [devs] lie in [[0, n)], every rank of that range is returned for some
    device, and no rank is returned for two devices. *)
Theorem shard_rank_is_position (p : EmbeddingCollectionParam) (t : Z) :
  column_in_range (shard_matrix p) t ->
  Z.of_nat (length (shard_matrix p)) <= INT_MAX ->
  let devs := shard_devices (shard_matrix p) t in
  (forall p' gpu, shard_matrix p' = shard_matrix p ->
     get_table_shard_id p' gpu t = get_table_shard_id p gpu t) /\
  StronglySorted Z.lt devs /\
  (forall gpu, In gpu devs <-> shard_entry (shard_matrix p) gpu t = Ok 1) /\
  (forall gpu r n, get_table_shard_id p gpu t = Ok (r, n) <->
     n = Z.of_nat (length devs) /\ 0 <= r /\
     nth_error devs (Z.to_nat r) = Some gpu) /\
  (forall gpu r n, get_table_shard_id p gpu t = Ok (r, n) -> 0 <= r < n) /\
  (forall r, 0 <= r < Z.of_nat (length devs) ->
     exists gpu, get_table_shard_id p gpu t = Ok (r, Z.of_nat (length devs))) /\
  (forall gpu gpu' r n n',
     get_table_shard_id p gpu t = Ok (r, n) ->
     get_table_shard_id p gpu' t = Ok (r, n') -> gpu = gpu').
Proof.
  intros Hc Hm devs.
  assert (Hok := fun gpu r n => get_table_shard_id_Ok p gpu t r n Hc Hm).
  fold devs in Hok.
  split; [| split; [| split; [| split; [| split; [| split]]]]].
  - intros p' gpu Hp'. unfold get_table_shard_id. now rewrite Hp'.
  - apply devices_where_sorted.
  - intros gpu. apply In_shard_devices.
  - exact Hok.
  - intros gpu r n H. apply Hok in H. destruct H as [-> [Hr Hn]].
    assert (Z.to_nat r < length devs)%nat by (apply nth_error_Some; congruence).
    lia.
  - intros r Hr.
    destruct (nth_error devs (Z.to_nat r)) as [gpu |] eqn:E.
    + exists gpu. apply Hok. repeat split; [lia | assumption].
    + apply nth_error_None in E. lia.
  - intros gpu gpu' r n n' H H'. apply Hok in H, H'.
    destruct H as [_ [_ H]]. destruct H' as [_ [_ H']]. congruence.
Qed.

Lemma shard_rank_is_position_witness :
  column_in_range (shard_matrix example_param) 0 /\
  Z.of_nat (length (shard_matrix example_param)) <= INT_MAX /\
  get_table_shard_id example_param 2 0 = Ok (1, 2) /\
  nth_error (shard_devices (shard_matrix example_param) 0) 1 = Some 2.
Proof.
  assert (Hc : column_in_range (shard_matrix example_param) 0)
    by (repeat constructor; simpl; lia).
  assert (Hm : Z.of_nat (length (shard_matrix example_param)) <= INT_MAX)
    by (unfold INT_MAX; simpl; lia).
  split; [exact Hc |]. split; [exact Hm |]. split; [reflexivity |].
  destruct (shard_rank_is_position example_param 0 Hc Hm) as [_ [_ [_ [H _]]]].
  apply (proj1 (H 2 1 2)). reflexivity.
Defined.

(** C4.  [get_table_shard_id] fails its check, with the hint "does not find
    shard id", exactly for the devices that are not among those it collects:
    the entry for the device and the table is not 1 (it is 0, or there is no
    such device); and it returns a result exactly when the entry is 1. *)
Theorem shard_not_found_iff (p : EmbeddingCollectionParam) (gpu t : Z) :
  column_in_range (shard_matrix p) t ->
  Z.of_nat (length (shard_matrix p)) <= INT_MAX ->
  (get_table_shard_id p gpu t = Raise (CheckHint shard_id_not_found) <->
     shard_entry (shard_matrix p) gpu t <> Ok 1) /\
  ((exists r n, get_table_shard_id p gpu t = Ok (r, n)) <->
     shard_entry (shard_matrix p) gpu t = Ok 1).
Proof.
  intros Hc Hm.
  destruct (get_table_shard_id_outcome p gpu t Hc Hm) as [[He Hf] | [He [r [n Hr]]]].
  - split; split; try tauto. intros [r [n H]]. congruence.
  - split; split; try tauto; [congruence | eauto].
Qed.

Lemma shard_not_found_iff_witness :
  column_in_range (shard_matrix example_param) 0 /\
  Z.of_nat (length (shard_matrix example_param)) <= INT_MAX /\
  shard_entry (shard_matrix example_param) 3 0 = Ok 0 /\
  get_table_shard_id example_param 3 0 = Raise (CheckHint shard_id_not_found).
Proof.
  assert (Hc : column_in_range (shard_matrix example_param) 0)
    by (repeat constructor; simpl; lia).
  assert (Hm : Z.of_nat (length (shard_matrix example_param)) <= INT_MAX)
    by (unfold INT_MAX; simpl; lia).
  split; [exact Hc |]. split; [exact Hm |]. split; [reflexivity |].
  apply (proj2 (proj1 (shard_not_found_iff example_param 3 0 Hc Hm))).
  discriminate.
Defined.

(** C9.  An entry of the shard matrix that is neither 0 nor 1 is a shard
    for [has_table_shard] and none for [get_table_shard_id]: for a lookup
    of that table [has_table_shard] is the group membership alone, the
    device is among the devices with a nonzero entry and not among the
    devices [get_table_shard_id] collects, the query for the device fails
    its check, and the [num_shard] of every query for the table counts the
    collected devices only, fewer than the devices with a nonzero entry. *)
Theorem shard_queries_disagree (p : EmbeddingCollectionParam) (gpu t v : Z) :
  column_in_range (shard_matrix p) t ->
  Z.of_nat (length (shard_matrix p)) <= INT_MAX ->
  shard_entry (shard_matrix p) gpu t = Ok v -> v <> 0 -> v <> 1 ->
  (forall g l lp, vec_at (lookup_params p) l = Ok lp -> table_id lp = t ->
     has_table_shard p gpu g l = lookup_id_in_group p g l) /\
  In gpu (portion_devices (shard_matrix p) t) /\
  ~ In gpu (shard_devices (shard_matrix p) t) /\
  get_table_shard_id p gpu t = Raise (CheckHint shard_id_not_found) /\
  (forall gpu' r n, get_table_shard_id p gpu' t = Ok (r, n) ->
     n = Z.of_nat (length (shard_devices (shard_matrix p) t)) /\
     n < Z.of_nat (length (portion_devices (shard_matrix p) t))).
Proof.
  intros Hc Hm Hv H0 H1.
  assert (Hp : In gpu (portion_devices (shard_matrix p) t))
    by (apply In_portion_devices; eauto).
  assert (Hs : ~ In gpu (shard_devices (shard_matrix p) t))
    by (rewrite In_shard_devices; congruence).
  split; [| split; [| split; [| split]]]; try assumption.
  - intros g l lp Hlp <-. unfold has_table_shard. rewrite Hlp. cbn [bind].
    unfold shard_entry in Hv.
    destruct (vec_at (shard_matrix p) gpu) as [row | |]; cbn [bind] in *;
      try discriminate.
    rewrite Hv. cbn [bind]. apply Z.eqb_neq in H0. rewrite H0.
    destruct (lookup_id_in_group p g l) as [b | |]; cbn [bind negb]; auto.
    now rewrite andb_true_r.
  - destruct (get_table_shard_id_outcome p gpu t Hc Hm) as [[_ Hf] | [He _]];
      [assumption | congruence].
  - intros gpu' r n H. apply get_table_shard_id_Ok in H; try assumption.
    destruct H as [-> _]. split; [reflexivity |].
    apply inj_lt. unfold shard_devices, portion_devices, devices_where in *.
    apply filter_length_lt with (a := gpu).
    + intros x _. destruct (shard_entry (shard_matrix p) x t) as [e | |]; auto.
      intros He. apply Z.eqb_eq in He. now subst e.
    + apply filter_In in Hp. tauto.
    + apply filter_In in Hp. tauto.
    + rewrite Hv. now apply Z.eqb_neq.
Qed.

Lemma shard_queries_disagree_witness :
  column_in_range (shard_matrix example_param) 0 /\
  Z.of_nat (length (shard_matrix example_param)) <= INT_MAX /\
  shard_entry (shard_matrix example_param) 1 0 = Ok 2 /\
  has_table_shard example_param 1 1 0 = Ok true /\
  get_table_shard_id example_param 1 0 = Raise (CheckHint shard_id_not_found) /\
  get_table_shard_id example_param 2 0 = Ok (1, 2).
Proof.
  assert (Hc : column_in_range (shard_matrix example_param) 0)
    by (repeat constructor; simpl; lia).
  assert (Hm : Z.of_nat (length (shard_matrix example_param)) <= INT_MAX)
    by (unfold INT_MAX; simpl; lia).
  split; [exact Hc |]. split; [exact Hm |]. split; [reflexivity |].
  split; [reflexivity |]. split; [| reflexivity].
  apply (shard_queries_disagree example_param 1 0 2 Hc Hm eq_refl); discriminate.
Defined.

(** ** The unique table ids of a lookup group *)

Lemma insert_by_table_perm (q : Z * Z) (ps : list (Z * Z)) :
  Permutation (WgradAttr.insert_by_table q ps) (q :: ps).
Proof.
  induction ps as [| r ps IH]; simpl; [reflexivity |].
  destruct (fst q <=? fst r); [reflexivity |].
  rewrite IH. apply perm_swap.
Qed.

Lemma sort_by_table_perm (ps : list (Z * Z)) :
  Permutation (WgradAttr.sort_by_table ps) ps.
Proof.
  induction ps as [| q ps IH]; simpl; [reflexivity |].
  rewrite insert_by_table_perm. now constructor.
Qed.

Lemma insert_by_table_sorted (q : Z * Z) (ps : list (Z * Z)) :
  Sorted Z.le (map fst ps) -> Sorted Z.le (map fst (WgradAttr.insert_by_table q ps)).
Proof.
  induction ps as [| r ps IH]; simpl; intros Hs.
  - repeat constructor.
  - destruct (Z.leb_spec (fst q) (fst r)); simpl.
    + constructor; [assumption |]. constructor. assumption.
    + apply Sorted_inv in Hs. destruct Hs as [Hs Hh].
      constructor; [now apply IH |].
      destruct ps as [| r' ps]; simpl.
      * constructor. lia.
      * destruct (fst q <=? fst r'); simpl; constructor; [lia |].
        now apply HdRel_inv in Hh.
Qed.

Lemma sort_by_table_sorted (ps : list (Z * Z)) :
  StronglySorted Z.le (map fst (WgradAttr.sort_by_table ps)).
Proof.
  apply Sorted_StronglySorted; [exact Z.le_trans |].
  induction ps as [| q ps IH]; simpl; [constructor |].
  now apply insert_by_table_sorted.
Qed.

Lemma deduplicate_length (v : list Z) :
  (length (WgradAttr.deduplicate v) <= length v)%nat.
Proof.
  induction v as [| x v IH]; simpl; [lia |].
  destruct (WgradAttr.deduplicate v) as [| y r]; simpl in *; [lia |].
  destruct (x =? y); simpl; lia.
Qed.

(** Nothing is dropped only if nothing is repeated. *)
Lemma deduplicate_full (v : list Z) :
  length (WgradAttr.deduplicate v) = length v -> WgradAttr.deduplicate v = v.
Proof.
  induction v as [| x v IH]; simpl; [reflexivity |].
  assert (Hl := deduplicate_length v).
  destruct (WgradAttr.deduplicate v) as [| y r]; simpl in *.
  - destruct v; simpl in *; [reflexivity | lia].
  - destruct (x =? y); simpl; intros H; [lia |].
    f_equal. apply IH. lia.
Qed.

Lemma In_deduplicate (v : list Z) (x : Z) :
  In x (WgradAttr.deduplicate v) <-> In x v.
Proof.
  induction v as [| y v IH]; simpl; [tauto |].
  destruct (WgradAttr.deduplicate v) as [| z r] eqn:E.
  - simpl in *. destruct v as [| y' v]; [tauto |].
    simpl in E. destruct (WgradAttr.deduplicate v) as [| z' r'];
      [discriminate | destruct (y' =? z'); discriminate].
  - destruct (Z.eqb_spec y z) as [-> | Hne]; rewrite <- IH; simpl; tauto.
Qed.

Lemma deduplicate_sorted (v : list Z) :
  StronglySorted Z.le v -> StronglySorted Z.lt (WgradAttr.deduplicate v).
Proof.
  induction 1 as [| x v Hs IH Hf]; simpl; [constructor |].
  destruct (WgradAttr.deduplicate v) as [| y r] eqn:E.
  - repeat constructor.
  - destruct (Z.eqb_spec x y) as [-> | Hne]; [assumption |].
    assert (Hy : x <= y).
    { rewrite Forall_forall in Hf. apply Hf, In_deduplicate.
      rewrite E. now left. }
    constructor; [assumption |].
    apply StronglySorted_inv in IH. destruct IH as [_ Hr].
    constructor; [lia |].
    rewrite Forall_forall in *. intros z Hz. specialize (Hr z Hz). lia.
Qed.

Lemma tables_of_length (lps : list LookupParam) (ids tables : list Z) :
  WgradAttr.tables_of lps ids = Ok tables -> length tables = length ids.
Proof.
  revert tables. induction ids as [| i ids IH]; simpl; intros tables H.
  - injection H as <-. reflexivity.
  - destruct (vec_at lps i) as [lp | |]; simpl in H; try discriminate.
    destruct (WgradAttr.tables_of lps ids) as [rest | |]; simpl in H;
      try discriminate.
    injection H as <-. simpl. f_equal. now apply IH.
Qed.

Lemma map_fst_combine {A B : Type} (a : list A) (b : list B) :
  length a = length b -> map fst (combine a b) = a.
Proof.
  revert b. induction a as [| x a IH]; intros [| y b] H; simpl in *;
    try discriminate; [reflexivity |].
  f_equal. apply IH. lia.
Qed.

(** What the modelled [init] establishes. *)
Lemma init_spec (p : EmbeddingCollectionParam) (g : Z) (w : WgradAttr.t) :
  WgradAttr.init p g = Ok w ->
  WgradAttr.num_lookup w = Z.of_nat (length (WgradAttr.lookup_id_to_table_ids w)) /\
  WgradAttr.num_table w = Z.of_nat (length (WgradAttr.sorted_unique_table_ids w)) /\
  WgradAttr.sorted_unique_table_ids w =
    WgradAttr.deduplicate (WgradAttr.sorted_table_ids w) /\
  StronglySorted Z.le (WgradAttr.sorted_table_ids w) /\
  Permutation (WgradAttr.sorted_table_ids w) (WgradAttr.lookup_id_to_table_ids w).
Proof.
  unfold WgradAttr.init.
  destruct (vec_at (grouped_lookup_params p) g) as [grp | |]; simpl;
    try discriminate.
  destruct (WgradAttr.tables_of (lookup_params p) (lookup_ids grp))
    as [tables | |] eqn:Et; simpl; try discriminate.
  intros [= <-]. simpl. apply tables_of_length in Et.
  repeat split.
  - now rewrite Et.
  - apply sort_by_table_sorted.
  - rewrite <- (map_fst_combine tables (lookup_ids grp) Et) at 2.
    apply Permutation_map, sort_by_table_perm.
Qed.

(** C7.  [get_unique_table_ids] returns [lookup_id_to_table_ids] when
    [num_table] equals [num_lookup] and [sorted_unique_table_ids] otherwise.
    For an attribute set up by [init], the unique table ids are strictly
    ascending and are the tables of the lookups of the group; when
    [num_table] equals [num_lookup], the returned per-lookup mapping has no
    repetition and is a rearrangement of the unique table ids: it denotes
    the same set of table ids. *)
Theorem unique_table_ids_shortcut :
  (forall w, WgradAttr.get_unique_table_ids w =
             if WgradAttr.num_table w =? WgradAttr.num_lookup w
             then WgradAttr.lookup_id_to_table_ids w
             else WgradAttr.sorted_unique_table_ids w) /\
  (forall p g w, WgradAttr.init p g = Ok w ->
     StronglySorted Z.lt (WgradAttr.sorted_unique_table_ids w) /\
     (forall t, In t (WgradAttr.sorted_unique_table_ids w) <->
                In t (WgradAttr.lookup_id_to_table_ids w)) /\
     (WgradAttr.num_table w = WgradAttr.num_lookup w ->
        WgradAttr.get_unique_table_ids w = WgradAttr.lookup_id_to_table_ids w /\
        NoDup (WgradAttr.get_unique_table_ids w) /\
        Permutation (WgradAttr.get_unique_table_ids w)
                    (WgradAttr.sorted_unique_table_ids w) /\
        (forall t, In t (WgradAttr.get_unique_table_ids w) <->
                   In t (WgradAttr.sorted_unique_table_ids w)))).
Proof.
  split; [reflexivity |].
  intros p g w Hw. apply init_spec in Hw.
  destruct Hw as [Hl [Ht [Hu [Hs Hp]]]].
  assert (Hsorted : StronglySorted Z.lt (WgradAttr.sorted_unique_table_ids w))
    by (rewrite Hu; now apply deduplicate_sorted).
  assert (Hin : forall t, In t (WgradAttr.sorted_unique_table_ids w) <->
                          In t (WgradAttr.lookup_id_to_table_ids w)).
  { intros t. rewrite Hu, In_deduplicate. split; apply Permutation_in; [| symmetry];
      exact Hp. }
  split; [assumption |]. split; [assumption |].
  intros Heq. unfold WgradAttr.get_unique_table_ids.
  rewrite (proj2 (Z.eqb_eq _ _) Heq).
  assert (Hfull : WgradAttr.sorted_unique_table_ids w = WgradAttr.sorted_table_ids w).
  { rewrite Hu. apply deduplicate_full. rewrite <- Hu.
    apply Nat2Z.inj. rewrite <- Ht, Heq, Hl.
    f_equal. symmetry. now apply Permutation_length. }
  split; [reflexivity |]. split; [| split].
  - apply (Permutation_NoDup (l := WgradAttr.sorted_unique_table_ids w)).
    + now rewrite Hfull.
    + now apply StronglySorted_lt_NoDup.
  - rewrite Hfull. now symmetry.
  - intros t. symmetry. apply Hin.
Qed.

Lemma unique_table_ids_shortcut_witness :
  exists w, WgradAttr.init crossed_param 0 = Ok w /\
    WgradAttr.num_table w = WgradAttr.num_lookup w /\
    WgradAttr.get_unique_table_ids w = [2; 0] /\
    WgradAttr.sorted_unique_table_ids w = [0; 2] /\
    Permutation (WgradAttr.get_unique_table_ids w)
                (WgradAttr.sorted_unique_table_ids w).
Proof.
  eexists. split; [reflexivity |]. split; [reflexivity |].
  split; [reflexivity |]. split; [reflexivity |].
  apply (proj2 unique_table_ids_shortcut crossed_param 0 _ eq_refl).
  reflexivity.
Defined.

(** * Further properties of the constructor *)

(** ** The groups in closed form *)

Lemma emplace_groups_closed (st : DenseCompressionStrategy) (n : Z)
    (lps : list LookupParam) (k : nat) (tp : GroupedTableParam) :
  selected_ids lps tp is_dense n = [] \/ ~ other_strategy st ->
  emplace_groups st k tp (selected_ids lps tp is_sparse n)
    (selected_ids lps tp is_dense n) [] =
  Ok (table_group_groups st n lps (k, tp)).
Proof.
  intros H. unfold emplace_groups, table_group_groups, sparse_group, dense_groups,
    push_back. cbn [fst snd].
  destruct (selected_ids lps tp is_sparse n) as [| s ss];
    destruct (selected_ids lps tp is_dense n) as [| d ds]; cbn [app];
    try reflexivity.
  - destruct H as [H | H]; [discriminate |].
    destruct (strategy_cases st) as [[-> | ->] | Ho]; [reflexivity .. | tauto].
  - destruct H as [H | H]; [discriminate |].
    destruct (strategy_cases st) as [[-> | ->] | Ho]; [reflexivity .. | tauto].
Qed.

Lemma not_rejected (st : DenseCompressionStrategy) (n : Z)
    (lps : list LookupParam) (tp : GroupedTableParam) :
  ~ group_rejected st n lps tp ->
  existsb (selects lps tp unsupported) (counter n) = false /\
  (selected_ids lps tp is_dense n = [] \/ ~ other_strategy st).
Proof.
  intros H. unfold group_rejected in H.
  rewrite <- (existsb_selects _ _ _ _ _ unsupported_iff) in H.
  rewrite <- (existsb_selects _ _ _ _ _ is_dense_iff) in H.
  split.
  - destruct (existsb (selects lps tp unsupported) (counter n)); tauto.
  - rewrite selected_ids_nil.
    destruct (existsb (selects lps tp is_dense) (counter n)); tauto.
Qed.

Lemma group_loop_body_closed (st : DenseCompressionStrategy) (n : Z)
    (lps : list LookupParam) (k : nat) (tp : GroupedTableParam) :
  n <= Z.of_nat (length lps) ->
  ~ group_rejected st n lps tp ->
  group_loop_body st n lps [] (k, tp) = Ok (table_group_groups st n lps (k, tp)).
Proof.
  intros Hn Hr. apply not_rejected in Hr. destruct Hr as [Hu Hd].
  rewrite group_loop_body_spec, Hu by assumption.
  now apply emplace_groups_closed.
Qed.

Lemma group_loop_closed (st : DenseCompressionStrategy) (n : Z)
    (lps : list LookupParam) (its : list (nat * GroupedTableParam)) :
  n <= Z.of_nat (length lps) ->
  Forall (fun tp => ~ group_rejected st n lps tp) (map snd its) ->
  for_each (group_loop_body st n lps) its [] =
  Ok (flat_map (table_group_groups st n lps) its).
Proof.
  intros Hn. induction its as [| [k tp] its IH]; intros Hf; [reflexivity |].
  cbn [map snd] in Hf. apply Forall_cons_iff in Hf. destruct Hf as [Hr Hf].
  rewrite group_loop_cons, group_loop_body_closed, IH by assumption.
  reflexivity.
Qed.

Lemma build_closed (st : DenseCompressionStrategy) (n : Z)
    (lps : list LookupParam) (gtp : list GroupedTableParam) :
  n <= Z.of_nat (length lps) ->
  Forall (fun tp => ~ group_rejected st n lps tp) gtp ->
  build_grouped_lookup_params st n lps gtp =
  Ok (flat_map (table_group_groups st n lps) (enumerate gtp)).
Proof.
  intros Hn Hf. unfold build_grouped_lookup_params.
  apply group_loop_closed; [assumption |]. now rewrite map_snd_enumerate.
Qed.

(** Whenever the loop returns, it returns the closed form. *)
Lemma build_Ok_closed (st : DenseCompressionStrategy) (n : Z)
    (lps : list LookupParam) (gtp : list GroupedTableParam)
    (gs : list GroupedLookupParam) :
  n <= Z.of_nat (length lps) ->
  build_grouped_lookup_params st n lps gtp = Ok gs ->
  gs = flat_map (table_group_groups st n lps) (enumerate gtp).
Proof.
  intros Hn Hgs.
  destruct (build_outcome st n lps gtp Hn) as [[_ [m Hm]] | [Hf _]]; [congruence |].
  rewrite (build_closed st n lps gtp Hn Hf) in Hgs. congruence.
Qed.

Lemma In_enumerate {A : Type} (v : list A) (k : nat) (a : A) :
  In (k, a) (enumerate v) <-> nth_error v k = Some a.
Proof.
  unfold enumerate.
  assert (H : forall s, In (k, a) (combine (seq s (length v)) v) <->
                        (s <= k)%nat /\ nth_error v (k - s) = Some a).
  { induction v as [| x v IH]; intros s; simpl.
    - split; [tauto |]. intros [_ H]. destruct (k - s)%nat; discriminate.
    - rewrite IH. split.
      + intros [[= <- <-] | [Hs Hn]].
        * rewrite Nat.sub_diag. auto.
        * split; [lia |]. replace (k - s)%nat with (S (k - S s)) by lia. exact Hn.
      + intros [Hs Hn]. destruct (Nat.eq_dec s k) as [-> | Hne].
        * rewrite Nat.sub_diag in Hn. injection Hn as ->. now left.
        * right. split; [lia |].
          replace (k - s)%nat with (S (k - S s)) in Hn by lia. exact Hn. }
  rewrite H, Nat.sub_0_r. split; [tauto | intros; split; [lia | assumption]].
Qed.

Lemma selected_ids_sorted (n : Z) (lps : list LookupParam) (tp : GroupedTableParam)
    (sel : Combiner -> bool) :
  StronglySorted Z.lt (selected_ids lps tp sel n).
Proof. apply StronglySorted_filter, counter_sorted. Qed.

(** Where a group of the closed form comes from. *)
Lemma In_table_group_groups (st : DenseCompressionStrategy) (n : Z)
    (lps : list LookupParam) (k : nat) (tp : GroupedTableParam)
    (g : GroupedLookupParam) :
  In g (table_group_groups st n lps (k, tp)) ->
  lookup_table_placement_strategy g = table_placement_strategy tp /\
  lookup_ids g <> [] /\
  ((embedding_type g = Sparse /\
    lookup_ids g = selected_ids lps tp is_sparse n /\
    grouped_table_idx g = int_of_size_t (Z.of_nat k)) \/
   (embedding_type g = Dense /\ st = DenseCompressionStrategy.Unique /\
    lookup_ids g = selected_ids lps tp is_dense n /\
    grouped_table_idx g = int_of_size_t (Z.of_nat k)) \/
   (embedding_type g = InfrequentDense /\ st <> DenseCompressionStrategy.Unique /\
    lookup_ids g = selected_ids lps tp is_dense n /\
    grouped_table_idx g = int_of_size_t (Z.of_nat k)) \/
   (embedding_type g = FrequentDense /\ st <> DenseCompressionStrategy.Unique /\
    lookup_ids g = selected_ids lps tp is_dense n /\
    grouped_table_idx g = -1)).
Proof.
  unfold table_group_groups, sparse_group, dense_groups. cbn [fst snd].
  intros H. apply in_app_or in H. destruct H as [H | H].
  - destruct (selected_ids lps tp is_sparse n) as [| s ss] eqn:Es; [destruct H |].
    destruct H as [<- | []]. cbn.
    split; [reflexivity |]. split; [discriminate |]. left. auto.
  - destruct (selected_ids lps tp is_dense n) as [| d ds] eqn:Ed; [destruct H |].
    destruct (Z.eqb_spec st DenseCompressionStrategy.Unique) as [Hs | Hs].
    + destruct H as [<- | []]. cbn.
      split; [reflexivity |]. split; [discriminate |]. right. left. auto.
    + destruct H as [<- | [<- | []]]; cbn;
        (split; [reflexivity |]); (split; [discriminate |]).
      * right. right. left. auto.
      * right. right. right. auto.
Qed.

Lemma nth_error_int_of_size_t {A : Type} (v : list A) (k : nat) (a : A) :
  Z.of_nat (length v) <= INT_MAX -> nth_error v k = Some a ->
  int_of_size_t (Z.of_nat k) = Z.of_nat k /\ vec_at v (Z.of_nat k) = Ok a.
Proof.
  intros Hm Hk.
  assert (k < length v)%nat by (apply nth_error_Some; congruence).
  split; [apply int_of_size_t_id; lia |].
  now rewrite vec_at_of_nat, Hk.
Qed.

Lemma fits_Sparse (c : Combiner) : is_sparse c = true <-> fits Sparse c.
Proof. unfold is_sparse, fits. now rewrite orb_true_iff, !Z.eqb_eq. Qed.

Lemma fits_Dense (c : Combiner) : is_dense c = true <-> fits Dense c.
Proof. unfold is_dense, fits. now rewrite Z.eqb_eq. Qed.

Lemma In_selected_ids_iff (n : Z) (lps : list LookupParam) (tp : GroupedTableParam)
    (sel : Combiner -> bool) (P : Combiner -> Prop) (l : Z) :
  (forall c, sel c = true <-> P c) ->
  In l (selected_ids lps tp sel n) <->
  0 <= l < n /\ exists lp, vec_at lps l = Ok lp /\
                           In (table_id lp) (table_ids tp) /\ P (combiner lp).
Proof.
  intros HP. rewrite In_selected_ids, selects_true.
  split; intros [Hl [lp H]]; (split; [assumption |]); exists lp;
    [rewrite <- HP | rewrite HP]; assumption.
Qed.

Section ConstructedObject.

Variables (tables batch : Z) (matrix : list (list Z)).
Variables (layout_in layout_out : EmbeddingLayout) (sort : SortStrategy).
Variables (preprocess : KeysPreprocessStrategy) (allreduce : AllreduceStrategy).
Variable comm : CommunicationStrategy.

Local Abbreviation new n lps gtp :=
  (EmbeddingCollectionParam_new tables n lps matrix gtp batch layout_in
     layout_out sort preprocess allreduce comm).

Lemma new_groups (n : Z) (lps : list LookupParam) (gtp : list GroupedTableParam)
    (p : EmbeddingCollectionParam) :
  n <= Z.of_nat (length lps) ->
  new n lps gtp = Ok p ->
  grouped_lookup_params p =
  flat_map (table_group_groups DenseCompressionStrategy.Unique n lps) (enumerate gtp).
Proof.
  intros Hn Hp. apply (build_Ok_closed _ n lps gtp _ Hn).
  rewrite <- groups_of_new with (num_table := tables) (m := matrix) (batch := batch)
    (li := layout_in) (lo := layout_out) (so := sort) (kp := preprocess)
    (ar := allreduce) (co := comm).
  now rewrite Hp.
Qed.

(** X1.  The nested loops of the constructor compute a filter: when no
    lookup of a grouped table has an unsupported combiner, construction
    returns the object that stores every argument in its field, has the
    Unique strategy, and whose groups are, for the table groups in order,
    the Sparse group of the Sum and Average lookups (if any) followed by
    the Dense group of the Concat lookups (if any), each listing the lookup
    ids in ascending order.  The loop body does the same under
    CacheFrequent, with an InfrequentDense and a FrequentDense group in
    place of the Dense one. *)
Theorem construction_closed_form (st : DenseCompressionStrategy) (n : Z)
    (lps : list LookupParam) (gtp : list GroupedTableParam) :
  n <= Z.of_nat (length lps) ->
  ~ Exists (has_lookup n lps other_combiner) gtp ->
  (~ other_strategy st ->
   build_grouped_lookup_params st n lps gtp =
   Ok (flat_map (table_group_groups st n lps) (enumerate gtp))) /\
  new n lps gtp =
  Ok {| num_table := tables;
        num_lookup := n;
        lookup_params := lps;
        shard_matrix := matrix;
        grouped_table_params := gtp;
        grouped_lookup_params :=
          flat_map (table_group_groups DenseCompressionStrategy.Unique n lps)
                   (enumerate gtp);
        universal_batch_size := batch;
        input_layout_ := layout_in;
        output_layout_ := layout_out;
        sort_strategy_ := sort;
        keys_preprocess_strategy_ := preprocess;
        allreduce_strategy_ := allreduce;
        comm_strategy_ := comm;
        dense_compression_strategy_ := DenseCompressionStrategy.Unique |}.
Proof.
  intros Hn Hno.
  assert (Hf : forall st', ~ other_strategy st' ->
                 Forall (fun tp => ~ group_rejected st' n lps tp) gtp).
  { intros st' Hst. apply Forall_forall. intros tp Htp [Hr | [_ Hr]]; [| tauto].
    apply Hno, Exists_exists. eauto. }
  split.
  - intros Hst. apply build_closed; auto.
  - unfold EmbeddingCollectionParam_new.
    rewrite (build_closed DenseCompressionStrategy.Unique n lps gtp Hn).
    + reflexivity.
    + apply Hf. intros [H _]. congruence.
Qed.

(** X2.  In a constructed object every group refers to an existing table
    group ([grouped_table_params[grouped_table_idx]]), carries its placement
    strategy, and [lookup_id_in_group] holds exactly for the lookups below
    [num_lookup] whose table is in that table group and whose combiner fits
    the embedding type of the group: Sum or Average for Sparse, Concat for
    Dense. *)
Theorem group_membership (n : Z) (lps : list LookupParam)
    (gtp : list GroupedTableParam) (p : EmbeddingCollectionParam)
    (g : Z) (grp : GroupedLookupParam) :
  n <= Z.of_nat (length lps) ->
  Z.of_nat (length gtp) <= INT_MAX ->
  new n lps gtp = Ok p ->
  vec_at (grouped_lookup_params p) g = Ok grp ->
  exists tp,
    vec_at gtp (grouped_table_idx grp) = Ok tp /\
    lookup_table_placement_strategy grp = table_placement_strategy tp /\
    forall l, lookup_id_in_group p g l = Ok true <->
              0 <= l < n /\
              exists lp, vec_at lps l = Ok lp /\
                         In (table_id lp) (table_ids tp) /\
                         fits (embedding_type grp) (combiner lp).
Proof.
  intros Hn Hm Hp Hg.
  assert (Hin : In grp (grouped_lookup_params p)).
  { apply vec_at_Ok in Hg. destruct Hg as [_ Hg]. eapply nth_error_In; eauto. }
  rewrite (new_groups n lps gtp p Hn Hp) in Hin.
  apply in_flat_map in Hin. destruct Hin as [[k tp] [Hk Hin]].
  apply In_enumerate in Hk.
  destruct (nth_error_int_of_size_t gtp k tp Hm Hk) as [Hi Htp].
  apply In_table_group_groups in Hin.
  destruct Hin as [Hpl [_ Hcase]]. exists tp.
  assert (Hmem : forall l, lookup_id_in_group p g l = Ok true <-> In l (lookup_ids grp)).
  { intros l. unfold lookup_id_in_group. rewrite Hg. cbn [bind].
    rewrite <- found_iff. split; [intros [= H]; exact H | intros ->; reflexivity]. }
  destruct Hcase as [[Hty [Hids Hidx]] | [[Hty [_ [Hids Hidx]]] |
                     [[_ [Hst _]] | [_ [Hst _]]]]]; try congruence.
  - rewrite Hidx, Hi. split; [assumption |]. split; [assumption |].
    intros l. rewrite Hmem, Hids, Hty.
    apply In_selected_ids_iff, fits_Sparse.
  - rewrite Hidx, Hi. split; [assumption |]. split; [assumption |].
    intros l. rewrite Hmem, Hids, Hty.
    apply In_selected_ids_iff, fits_Dense.
Qed.
(** X3.  In every group that the loop emplaces, under any strategy, the
    lookup ids are strictly ascending (so none is repeated) and lie in
    [[0, num_lookup)]; in a constructed object [lookup_id_in_group] is
    therefore never true for an id outside that range. *)
Theorem lookup_ids_ascending (st : DenseCompressionStrategy) (n : Z)
    (lps : list LookupParam) (gtp : list GroupedTableParam)
    (gs : list GroupedLookupParam) :
  n <= Z.of_nat (length lps) ->
  build_grouped_lookup_params st n lps gtp = Ok gs ->
  (forall grp, In grp gs ->
     StronglySorted Z.lt (lookup_ids grp) /\ NoDup (lookup_ids grp) /\
     forall l, In l (lookup_ids grp) -> 0 <= l < n) /\
  (forall p g l, new n lps gtp = Ok p ->
     lookup_id_in_group p g l = Ok true -> 0 <= l < n).
Proof.
  intros Hn Hgs.
  assert (Hall : forall st' gs', build_grouped_lookup_params st' n lps gtp = Ok gs' ->
            forall grp, In grp gs' ->
              StronglySorted Z.lt (lookup_ids grp) /\
              forall l, In l (lookup_ids grp) -> 0 <= l < n).
  { intros st' gs' Hgs' grp Hin.
    rewrite (build_Ok_closed st' n lps gtp gs' Hn Hgs') in Hin.
    apply in_flat_map in Hin. destruct Hin as [[k tp] [_ Hin]].
    apply In_table_group_groups in Hin. destruct Hin as [_ [_ Hcase]].
    assert (Hids : exists sel, lookup_ids grp = selected_ids lps tp sel n).
    { destruct Hcase as [[_ [H _]] | [[_ [_ [H _]]] | [[_ [_ [H _]]] | [_ [_ [H _]]]]]];
        eauto. }
    destruct Hids as [sel ->]. split; [apply selected_ids_sorted |].
    intros l Hl. now apply In_selected_ids in Hl. }
  split.
  - intros grp Hin. destruct (Hall st gs Hgs grp Hin) as [Hs Hr].
    split; [assumption |]. split; [now apply StronglySorted_lt_NoDup | assumption].
  - intros p g l Hp Hl. apply lookup_id_in_group_true in Hl.
    destruct Hl as [_ [grp [Hg Hf]]]. apply found_iff in Hf.
    apply (new_Ok tables batch matrix layout_in layout_out sort preprocess
             allreduce comm) in Hp.
    destruct Hp as [Hb _].
    apply (proj2 (Hall _ _ Hb grp (nth_error_In _ _ Hg)) l Hf).
Qed.

Lemma vec_at_never_raises {A : Type} (v : list A) (i : Z) (e : Exception) :
  vec_at v i <> Raise e.
Proof.
  unfold vec_at. destruct (i <? 0); [discriminate |].
  destruct (nth_error v (Z.to_nat i)); discriminate.
Qed.

Lemma lookup_loop_raises (lps : list LookupParam) (tp : GroupedTableParam)
    (ids : list Z) (s : list Z * list Z) (e : Exception) :
  for_each (lookup_loop_body lps tp) ids s = Raise e ->
  e = OwnThrow IllegalCall combiner_not_supported.
Proof.
  revert s. induction ids as [| i ids IH]; intros s; cbn [for_each]; [discriminate |].
  destruct (lookup_loop_body lps tp s i) as [s' | e' |] eqn:Eb; cbn [bind].
  - exact (IH s').
  - intros [= <-]. revert Eb. unfold lookup_loop_body, HCTR_OWN_THROW.
    destruct s as [sp de].
    destruct (vec_at lps i) as [lp | x |] eqn:Ev; cbn [bind]; try discriminate;
      [| now apply vec_at_never_raises in Ev].
    destruct (not_found _ _); [discriminate |].
    destruct (combiner lp =? Combiner.Concat); [discriminate |].
    destruct ((combiner lp =? Combiner.Sum) || (combiner lp =? Combiner.Average));
      [discriminate |].
    congruence.
  - discriminate.
Qed.

Lemma emplace_groups_Unique_types (k : nat) (tp : GroupedTableParam)
    (sparse dense : list Z) (acc : list GroupedLookupParam) :
  exists gs,
    emplace_groups DenseCompressionStrategy.Unique k tp sparse dense acc =
      Ok (acc ++ gs) /\
    Forall (fun g => embedding_type g = Sparse \/ embedding_type g = Dense) gs.
Proof.
  unfold emplace_groups, push_back.
  destruct sparse as [| s ss], dense as [| d ds]; cbn.
  - exists []. now rewrite app_nil_r.
  - eexists. split; [reflexivity |]. constructor; [now right | constructor].
  - eexists. split; [reflexivity |]. constructor; [now left | constructor].
  - eexists. rewrite <- app_assoc. split; [reflexivity |].
    constructor; [now left |]. constructor; [now right | constructor].
Qed.

Lemma group_loop_Unique_types (n : Z) (lps : list LookupParam)
    (its : list (nat * GroupedTableParam)) (acc : list GroupedLookupParam) :
  let P := fun g => embedding_type g = Sparse \/ embedding_type g = Dense in
  Forall P acc ->
  match for_each (group_loop_body DenseCompressionStrategy.Unique n lps) its acc with
  | Ok gs => Forall P gs
  | Raise e => e = OwnThrow IllegalCall combiner_not_supported
  | Undefined => True
  end.
Proof.
  intros P. revert acc. induction its as [| [k tp] its IH]; intros acc Hacc;
    cbn [for_each]; [assumption |].
  unfold group_loop_body at 1.
  destruct (for_each (lookup_loop_body lps tp) (counter n) ([], []))
    as [[sp de] | e |] eqn:El; cbn [bind].
  - destruct (emplace_groups_Unique_types k tp sp de acc) as [gs [-> Hgs]].
    cbn [bind]. apply IH. apply Forall_app. now split.
  - now apply lookup_loop_raises in El.
  - exact I.
Qed.

(** X4.  What the constructor never does: it never throws anything but the
    error for an unsupported combiner (the error for the dense compression
    strategy cannot occur), and an object it returns has the Unique strategy
    and only Sparse and Dense groups, never an InfrequentDense or a
    FrequentDense one.  No assumption on the arguments is needed. *)
Theorem constructor_never (n : Z) (lps : list LookupParam)
    (gtp : list GroupedTableParam) :
  (forall e, new n lps gtp = Raise e ->
     e = OwnThrow IllegalCall combiner_not_supported) /\
  (forall p, new n lps gtp = Ok p ->
     dense_compression_strategy_ p = DenseCompressionStrategy.Unique /\
     forall grp, In grp (grouped_lookup_params p) ->
       embedding_type grp = Sparse \/ embedding_type grp = Dense).
Proof.
  assert (H := group_loop_Unique_types n lps (enumerate gtp) [] (Forall_nil _)).
  fold (build_grouped_lookup_params DenseCompressionStrategy.Unique n lps gtp) in H.
  unfold EmbeddingCollectionParam_new.
  destruct (build_grouped_lookup_params DenseCompressionStrategy.Unique n lps gtp)
    as [gs | e' |]; cbn [bind]; split; try discriminate.
  - intros p [= <-]. cbn. split; [reflexivity |]. now apply Forall_forall.
  - intros e [= <-]. exact H.
Qed.

(** X5.  In a constructed object the number of groups that contain a lookup
    id equals the number of table groups that contain the table of that
    lookup: none if the table is in no table group, several if the table is
    listed in several table groups; ids outside [[0, num_lookup)] are in no
    group. *)
Theorem groups_of_a_lookup (n : Z) (lps : list LookupParam)
    (gtp : list GroupedTableParam) (p : EmbeddingCollectionParam) :
  n <= Z.of_nat (length lps) ->
  new n lps gtp = Ok p ->
  (forall l lp, 0 <= l < n -> vec_at lps l = Ok lp ->
     groups_containing (grouped_lookup_params p) l =
     table_groups_containing gtp (table_id lp)) /\
  (forall l, ~ 0 <= l < n -> groups_containing (grouped_lookup_params p) l = 0%nat).
Proof.
  intros Hn Hp. assert (Hcl := new_groups n lps gtp p Hn Hp).
  apply (new_Ok tables batch matrix layout_in layout_out sort preprocess
           allreduce comm) in Hp.
  destruct Hp as [Hb _]. split.
  - intros l lp Hl Hlp. now apply (build_count_Unique n lps gtp).
  - intros l Hl. apply groups_containing_zero. intros grp Hin Hmem.
    rewrite Hcl in Hin. apply in_flat_map in Hin. destruct Hin as [[k tp] [_ Hin]].
    apply In_table_group_groups in Hin. destruct Hin as [_ [_ Hcase]].
    assert (Hids : exists sel, lookup_ids grp = selected_ids lps tp sel n).
    { destruct Hcase as [[_ [H _]] | [[_ [_ [H _]]] | [[_ [_ [H _]]] | [_ [_ [H _]]]]]];
        eauto. }
    destruct Hids as [sel Hids]. rewrite Hids in Hmem.
    apply In_selected_ids in Hmem. tauto.
Qed.

Lemma StronglySorted_app_intro {A : Type} (R : A -> A -> Prop) (a b : list A) :
  StronglySorted R a -> StronglySorted R b ->
  (forall x y, In x a -> In y b -> R x y) ->
  StronglySorted R (a ++ b).
Proof.
  induction 1 as [| x a Ha IH Hx]; intros Hb Hab; simpl; [assumption |].
  constructor.
  - apply IH; [assumption |]. intros u v Hu Hv. apply Hab; [now right | assumption].
  - apply Forall_app. split; [assumption |].
    apply Forall_forall. intros y Hy. apply Hab; [now left | assumption].
Qed.

(** The groups of one table group under Unique: at most a Sparse group
    followed by a Dense group, both with the index of the table group. *)
Lemma table_group_groups_Unique (n : Z) (lps : list LookupParam) (k : nat)
    (tp : GroupedTableParam) :
  let gs := table_group_groups DenseCompressionStrategy.Unique n lps (k, tp) in
  StronglySorted group_before gs /\ (length gs <= 2)%nat /\
  Forall (fun g => grouped_table_idx g = int_of_size_t (Z.of_nat k)) gs.
Proof.
  unfold table_group_groups, sparse_group, dense_groups. cbn [fst snd].
  destruct (selected_ids lps tp is_sparse n) as [| s ss];
    destruct (selected_ids lps tp is_dense n) as [| d ds]; cbn.
  - repeat split; [constructor | lia | constructor].
  - repeat split; [repeat constructor | lia | repeat constructor].
  - repeat split; [repeat constructor | lia | repeat constructor].
  - repeat split; [| lia | repeat constructor].
    constructor; [repeat constructor |].
    constructor; [| constructor]. right. cbn. auto.
Qed.

Lemma flat_map_groups_ordered (n : Z) (lps : list LookupParam)
    (v : list GroupedTableParam) (s : nat) :
  Z.of_nat (s + length v) <= INT_MAX ->
  let gs := flat_map (table_group_groups DenseCompressionStrategy.Unique n lps)
                     (combine (seq s (length v)) v) in
  StronglySorted group_before gs /\ (length gs <= 2 * length v)%nat /\
  Forall (fun g => Z.of_nat s <= grouped_table_idx g) gs.
Proof.
  revert s. induction v as [| tp v IH]; intros s Hs; cbn [length seq combine flat_map].
  - repeat split; [constructor | lia | constructor].
  - cbn [length] in Hs.
    destruct (IH (S s)) as [IH1 [IH2 IH3]]; [lia |].
    destruct (table_group_groups_Unique n lps s tp) as [H1 [H2 H3]].
    rewrite int_of_size_t_id in H3 by lia.
    rewrite Forall_forall in H3, IH3.
    split; [| split].
    + apply StronglySorted_app_intro; try assumption.
      intros x y Hx Hy. left. rewrite (H3 x Hx). specialize (IH3 y Hy). lia.
    + rewrite length_app. lia.
    + apply Forall_app. split; apply Forall_forall; intros g Hg.
      * rewrite (H3 g Hg). lia.
      * specialize (IH3 g Hg). lia.
Qed.

(** X6.  The groups of a constructed object follow the table groups: their
    indices never decrease along [grouped_lookup_params], a table group has
    at most one Sparse and one Dense group, the Sparse one first, and there
    are at most two groups per table group. *)
Theorem groups_follow_table_groups (n : Z) (lps : list LookupParam)
    (gtp : list GroupedTableParam) (p : EmbeddingCollectionParam) :
  n <= Z.of_nat (length lps) ->
  Z.of_nat (length gtp) <= INT_MAX ->
  new n lps gtp = Ok p ->
  StronglySorted group_before (grouped_lookup_params p) /\
  (length (grouped_lookup_params p) <= 2 * length gtp)%nat.
Proof.
  intros Hn Hm Hp. rewrite (new_groups n lps gtp p Hn Hp). unfold enumerate.
  destruct (flat_map_groups_ordered n lps gtp 0) as [H1 [H2 _]]; [simpl; lia |].
  split; assumption.
Qed.

Lemma group_loop_body_nothing (st : DenseCompressionStrategy) (n : Z)
    (lps : list LookupParam) (acc : list GroupedLookupParam)
    (it : nat * GroupedTableParam) :
  n <= 0 -> group_loop_body st n lps acc it = Ok acc.
Proof.
  intros Hn. destruct it as [k tp]. unfold group_loop_body, counter.
  replace (Z.to_nat n) with 0%nat by lia. reflexivity.
Qed.

(** X7.  With nothing to group, nothing is read: when there is no table
    group, or when [num_lookup] is not positive, construction returns an
    object without groups whatever [lookup_params] holds, even if it is
    shorter than [num_lookup]. *)
Theorem construction_of_nothing (n : Z) (lps : list LookupParam)
    (gtp : list GroupedTableParam) :
  gtp = [] \/ n <= 0 ->
  exists p, new n lps gtp = Ok p /\ grouped_lookup_params p = [].
Proof.
  intros H.
  assert (Hb : build_grouped_lookup_params DenseCompressionStrategy.Unique n lps gtp
               = Ok []).
  { destruct H as [-> | Hn]; [reflexivity |].
    unfold build_grouped_lookup_params.
    induction (enumerate gtp) as [| it its IH]; [reflexivity |].
    cbn [for_each]. now rewrite group_loop_body_nothing. }
  unfold EmbeddingCollectionParam_new. rewrite Hb. cbn [bind].
  eexists. split; reflexivity.
Qed.

Lemma counter_app (a b : nat) :
  counter (Z.of_nat (a + b)) =
  counter (Z.of_nat a) ++ map Z.of_nat (seq a b).
Proof. unfold counter. now rewrite !Nat2Z.id, seq_app, map_app. Qed.

Lemma lookup_loop_past_end (lps : list LookupParam) (tp : GroupedTableParam) (n : Z) :
  Z.of_nat (length lps) < n ->
  for_each (lookup_loop_body lps tp) (counter n) ([], []) =
  if existsb (selects lps tp unsupported) (counter (Z.of_nat (length lps)))
  then Raise (OwnThrow IllegalCall combiner_not_supported)
  else Undefined.
Proof.
  intros Hn.
  replace n with (Z.of_nat (length lps + S (Z.to_nat n - S (length lps)))) by lia.
  rewrite counter_app, for_each_app.
  rewrite lookup_loop_spec by (apply counter_in_range; lia).
  destruct (existsb _ _); [reflexivity |]. cbn [bind seq map for_each].
  unfold lookup_loop_body at 1. rewrite vec_at_of_nat.
  assert (E : nth_error lps (length lps) = None) by (apply nth_error_None; lia).
  rewrite E. reflexivity.
Qed.

(** X8.  With a table group and a [num_lookup] larger than [lookup_params],
    the constructor's loop reads past the end of the vector while it handles
    the first table group: unless an existing lookup of that table group
    has an unsupported combiner, in which case it throws before the read,
    its behaviour is undefined, under every strategy. *)
Theorem construction_reads_past_the_end (st : DenseCompressionStrategy) (n : Z)
    (lps : list LookupParam) (tp : GroupedTableParam)
    (rest : list GroupedTableParam) :
  Z.of_nat (length lps) < n ->
  build_grouped_lookup_params st n lps (tp :: rest) =
  if existsb (selects lps tp unsupported) (counter (Z.of_nat (length lps)))
  then Raise (OwnThrow IllegalCall combiner_not_supported)
  else Undefined.
Proof.
  intros Hn. unfold build_grouped_lookup_params, enumerate.
  cbn [length seq combine for_each]. unfold group_loop_body at 1.
  rewrite lookup_loop_past_end by assumption.
  destruct (existsb _ _); reflexivity.
Qed.

Lemma vec_at_Forall2 {A : Type} (R : A -> A -> Prop) (v w : list A) (i : Z) :
  Forall2 R v w ->
  match vec_at v i, vec_at w i with
  | Ok a, Ok b => R a b
  | Undefined, Undefined => True
  | _, _ => False
  end.
Proof.
  intros H. unfold vec_at. destruct (i <? 0); [exact I |].
  generalize (Z.to_nat i) as k. induction H as [| a b v w Hab H IH]; intros k.
  - destruct k; exact I.
  - destruct k as [| k]; [exact Hab | apply IH].
Qed.

Lemma lookup_loop_body_same_lookup (lps lps' : list LookupParam)
    (tp : GroupedTableParam) (s : list Z * list Z) (i : Z) :
  Forall2 same_lookup lps lps' ->
  lookup_loop_body lps tp s i = lookup_loop_body lps' tp s i.
Proof.
  intros H. apply (vec_at_Forall2 _ _ _ i) in H.
  unfold lookup_loop_body. destruct s as [sp de].
  destruct (vec_at lps i) as [a | |], (vec_at lps' i) as [b | |];
    try contradiction; [| reflexivity].
  destruct H as [Ht Hc]. cbn [bind]. now rewrite Ht, Hc.
Qed.

(** X9.  The constructor reads the table id and the combiner of a lookup
    and nothing else: two lookup lists that agree on these give the same
    outcome and the same groups.  In particular the field [lookup_id] of a
    lookup is ignored; the id of a lookup is its position. *)
Theorem construction_reads_table_and_combiner (st : DenseCompressionStrategy)
    (n : Z) (lps lps' : list LookupParam) (gtp : list GroupedTableParam) :
  Forall2 same_lookup lps lps' ->
  build_grouped_lookup_params st n lps gtp =
    build_grouped_lookup_params st n lps' gtp /\
  groups_of (new n lps gtp) = groups_of (new n lps' gtp).
Proof.
  intros H.
  assert (Hb : forall st', build_grouped_lookup_params st' n lps gtp =
                           build_grouped_lookup_params st' n lps' gtp).
  { intros st'. unfold build_grouped_lookup_params.
    apply for_each_ext. intros acc [k tp] _. unfold group_loop_body. f_equal.
    apply for_each_ext. intros s i _. now apply lookup_loop_body_same_lookup. }
  split; [apply Hb |]. rewrite !groups_of_new. apply Hb.
Qed.

Lemma group_loop_body_same_table_group (st : DenseCompressionStrategy) (n : Z)
    (lps : list LookupParam) (acc : list GroupedLookupParam) (k : nat)
    (tp tp' : GroupedTableParam) :
  same_table_group tp tp' ->
  group_loop_body st n lps acc (k, tp) = group_loop_body st n lps acc (k, tp').
Proof.
  intros [Hp Ht]. unfold group_loop_body.
  replace (for_each (lookup_loop_body lps tp') (counter n) ([], []))
    with (for_each (lookup_loop_body lps tp) (counter n) ([], [])).
  - destruct (for_each _ _ _) as [[sp de] | |]; cbn [bind]; try reflexivity.
    unfold emplace_groups. now rewrite Hp.
  - apply for_each_ext. intros [sp de] i _. unfold lookup_loop_body.
    destruct (vec_at lps i) as [lp | |]; cbn [bind]; try reflexivity.
    replace (not_found (table_ids tp') (table_id lp))
      with (not_found (table_ids tp) (table_id lp)); [reflexivity |].
    apply eq_true_iff_eq. rewrite !not_found_iff, Ht. reflexivity.
Qed.

(** X10.  A table group is read as a set of table ids with a placement
    strategy: the order of its [table_ids] and repetitions among them do
    not matter.  Table-group lists that agree in this sense give the same
    outcome and the same groups. *)
Theorem construction_reads_table_ids_as_sets (st : DenseCompressionStrategy)
    (n : Z) (lps : list LookupParam) (gtp gtp' : list GroupedTableParam) :
  Forall2 same_table_group gtp gtp' ->
  build_grouped_lookup_params st n lps gtp =
    build_grouped_lookup_params st n lps gtp' /\
  groups_of (new n lps gtp) = groups_of (new n lps gtp').
Proof.
  intros H.
  assert (Hb : forall st', build_grouped_lookup_params st' n lps gtp =
                           build_grouped_lookup_params st' n lps gtp').
  { intros st'. unfold build_grouped_lookup_params, enumerate.
    generalize (@nil GroupedLookupParam) as acc. generalize 0%nat as s.
    induction H as [| tp tp' v w Htp H IH]; intros s acc; [reflexivity |].
    cbn [length seq combine for_each].
    rewrite (group_loop_body_same_table_group st' n lps acc s tp tp' Htp).
    destruct (group_loop_body st' n lps acc (s, tp')); cbn [bind]; auto. }
  split; [apply Hb |]. rewrite !groups_of_new. apply Hb.
Qed.

Lemma enumerate_app {A : Type} (a b : list A) :
  enumerate (a ++ b) = enumerate a ++ combine (seq (length a) (length b)) b.
Proof.
  unfold enumerate. rewrite length_app, seq_app. cbn [Nat.add].
  generalize (seq (length a) (length b)) as t.
  assert (Hl : length (seq 0 (length a)) = length a) by apply length_seq.
  revert Hl. generalize (seq 0 (length a)) as u.
  induction a as [| x a IH]; intros [| y u] Hl t; simpl in *; try discriminate;
    [reflexivity |].
  f_equal. apply IH. lia.
Qed.

(** X11.  Table groups are handled one after the other: the outcome for a
    list of table groups extends the outcome for any front part of it.  If
    the front part throws or is undefined, so is the whole with the same
    exception; if the whole returns, the front part returns and its groups
    are the first groups of the whole. *)
Theorem construction_of_a_front_part (st : DenseCompressionStrategy) (n : Z)
    (lps : list LookupParam) (front back : list GroupedTableParam) :
  (forall e, build_grouped_lookup_params st n lps front = Raise e ->
     build_grouped_lookup_params st n lps (front ++ back) = Raise e) /\
  (build_grouped_lookup_params st n lps front = Undefined ->
     build_grouped_lookup_params st n lps (front ++ back) = Undefined) /\
  (forall gs, build_grouped_lookup_params st n lps (front ++ back) = Ok gs ->
     exists gs1 gs2, build_grouped_lookup_params st n lps front = Ok gs1 /\
                     gs = gs1 ++ gs2).
Proof.
  unfold build_grouped_lookup_params. rewrite enumerate_app, for_each_app.
  destruct (for_each _ (enumerate front) []) as [gs1 | e1 |]; cbn [bind].
  - split; [discriminate |]. split; [discriminate |].
    intros gs Hgs. rewrite group_loop_acc in Hgs.
    destruct (for_each _ _ []) as [gs2 | |]; cbn [bind] in Hgs; try discriminate.
    injection Hgs as <-. eauto.
  - split; [auto |]. split; discriminate.
  - split; [discriminate |]. split; [auto | discriminate].
Qed.

(** X12.  The first table group that is rejected decides the error, and
    within a table group the combiners are checked before the strategy:
    after table groups that are accepted, a table group with a lookup of
    unsupported combiner makes construction throw the combiner error, also
    when it has Concat lookups under an unsupported strategy; a table group
    without such a lookup but with Concat lookups under an unsupported
    strategy makes it throw the strategy error. *)
Theorem first_rejected_table_group_decides (st : DenseCompressionStrategy) (n : Z)
    (lps : list LookupParam) (front back : list GroupedTableParam)
    (tp : GroupedTableParam) :
  n <= Z.of_nat (length lps) ->
  Forall (fun tp' => ~ group_rejected st n lps tp') front ->
  (has_lookup n lps other_combiner tp ->
   build_grouped_lookup_params st n lps (front ++ tp :: back) =
   Raise (OwnThrow IllegalCall combiner_not_supported)) /\
  (~ has_lookup n lps other_combiner tp ->
   has_lookup n lps (eq Combiner.Concat) tp -> other_strategy st ->
   build_grouped_lookup_params st n lps (front ++ tp :: back) =
   Raise (OwnThrow IllegalCall dense_compression_strategy_not_supported)).
Proof.
  intros Hn Hf. unfold build_grouped_lookup_params.
  rewrite enumerate_app, for_each_app.
  assert (Hfront := build_closed st n lps front Hn Hf).
  unfold build_grouped_lookup_params in Hfront. rewrite Hfront.
  cbn [bind length seq combine for_each].
  rewrite group_loop_body_spec by assumption.
  rewrite <- (existsb_selects _ _ _ _ _ unsupported_iff).
  rewrite <- (existsb_selects _ _ _ _ _ is_dense_iff).
  destruct (existsb (selects lps tp unsupported) (counter n)); split;
    try reflexivity; try congruence; try tauto.
  intros _ Hd Ho. rewrite emplace_groups_throws; try assumption; [reflexivity |].
  rewrite selected_ids_nil. congruence.
Qed.

End ConstructedObject.

(** ** The loop under CacheFrequent *)

Lemma frequent_pairs_app (a b : list GroupedLookupParam) :
  frequent_pairs a -> frequent_pairs b -> frequent_pairs (a ++ b).
Proof.
  induction 1; intros Hb; simpl; [assumption | |].
  - apply frequent_pairs_sparse; auto.
  - apply frequent_pairs_dense; auto.
Qed.

Lemma table_group_groups_CacheFrequent (n : Z) (lps : list LookupParam) (k : nat)
    (tp : GroupedTableParam) :
  frequent_pairs
    (table_group_groups DenseCompressionStrategy.CacheFrequent n lps (k, tp)).
Proof.
  unfold table_group_groups, sparse_group, dense_groups. cbn [fst snd].
  apply frequent_pairs_app.
  - destruct (selected_ids lps tp is_sparse n); [constructor |].
    apply frequent_pairs_sparse; [reflexivity | constructor].
  - destruct (selected_ids lps tp is_dense n); [constructor |].
    apply frequent_pairs_dense; try reflexivity. constructor.
Qed.

Lemma groups_containing_one (g : GroupedLookupParam) (l : Z) :
  groups_containing [g] l = if negb (not_found (lookup_ids g) l) then 1%nat else 0%nat.
Proof.
  unfold groups_containing. simpl.
  destruct (negb (not_found (lookup_ids g) l)); reflexivity.
Qed.

Lemma sparse_group_count (n : Z) (lps : list LookupParam) (k : nat)
    (tp : GroupedTableParam) (l : Z) :
  0 <= l < n ->
  groups_containing (sparse_group n lps k tp) l =
  if selects lps tp is_sparse l then 1%nat else 0%nat.
Proof.
  intros Hl. rewrite <- (found_selected_ids lps tp is_sparse n l Hl).
  unfold sparse_group.
  destruct (selected_ids lps tp is_sparse n) as [| s ss]; [reflexivity |].
  now rewrite groups_containing_one.
Qed.

Lemma dense_groups_count (n : Z) (lps : list LookupParam) (k : nat)
    (tp : GroupedTableParam) (l : Z) :
  0 <= l < n ->
  groups_containing
    (dense_groups DenseCompressionStrategy.CacheFrequent n lps k tp) l =
  if selects lps tp is_dense l then 2%nat else 0%nat.
Proof.
  intros Hl. rewrite <- (found_selected_ids lps tp is_dense n l Hl).
  unfold dense_groups.
  destruct (selected_ids lps tp is_dense n) as [| d ds]; [reflexivity |].
  change (DenseCompressionStrategy.CacheFrequent =? DenseCompressionStrategy.Unique)
    with false. cbv iota.
  change [?a; ?b] with ([a] ++ [b]).
  rewrite groups_containing_app, !groups_containing_one. cbn [lookup_ids].
  destruct (negb (not_found (d :: ds) l)); reflexivity.
Qed.

Lemma table_group_groups_count (n : Z) (lps : list LookupParam) (k : nat)
    (tp : GroupedTableParam) (l : Z) (lp : LookupParam) :
  0 <= l < n -> vec_at lps l = Ok lp ->
  existsb (selects lps tp unsupported) (counter n) = false ->
  groups_containing
    (table_group_groups DenseCompressionStrategy.CacheFrequent n lps (k, tp)) l =
  if in_table_group tp lp
  then (if is_dense (combiner lp) then 2%nat else 1%nat)
  else 0%nat.
Proof.
  intros Hl Hlp Hu.
  assert (Hul : selects lps tp unsupported l = false).
  { destruct (selects lps tp unsupported l) eqn:E; [| reflexivity].
    rewrite <- Hu. symmetry. apply existsb_exists. exists l.
    split; [now apply In_counter | assumption]. }
  unfold table_group_groups. cbn [fst snd].
  rewrite groups_containing_app, sparse_group_count, dense_groups_count by assumption.
  revert Hul. unfold selects. rewrite Hlp. unfold unsupported, supported.
  destruct (in_table_group tp lp), (is_dense (combiner lp)) eqn:Ed,
    (is_sparse (combiner lp)) eqn:Es; cbn; try congruence.
  exfalso. unfold is_dense, is_sparse in *.
  apply Z.eqb_eq in Ed. rewrite Ed in Es. discriminate.
Qed.

Lemma flat_map_cache_frequent (n : Z) (lps : list LookupParam)
    (its : list (nat * GroupedTableParam)) :
  let gs := flat_map (table_group_groups DenseCompressionStrategy.CacheFrequent n lps)
                     its in
  Forall (fun tp => ~ group_rejected DenseCompressionStrategy.CacheFrequent n lps tp)
         (map snd its) ->
  frequent_pairs gs /\
  forall l lp, 0 <= l < n -> vec_at lps l = Ok lp ->
    groups_containing gs l =
    ((if is_dense (combiner lp) then 2 else 1) *
     table_groups_containing (map snd its) (table_id lp))%nat.
Proof.
  induction its as [| [k tp] its IH]; cbn [flat_map map snd]; intros Hf.
  - split; [constructor |]. intros l lp _ _. cbn. lia.
  - apply Forall_cons_iff in Hf. destruct Hf as [Hr Hf].
    destruct (IH Hf) as [IH1 IH2]. split.
    + apply frequent_pairs_app; [apply table_group_groups_CacheFrequent | assumption].
    + intros l lp Hl Hlp. rewrite groups_containing_app, (IH2 l lp Hl Hlp).
      apply not_rejected in Hr. destruct Hr as [Hu _].
      rewrite (table_group_groups_count n lps k tp l lp Hl Hlp Hu).
      unfold table_groups_containing, in_table_group. cbn [filter].
      destruct (negb (not_found (table_ids tp) (table_id lp))); cbn [length];
        destruct (is_dense (combiner lp)); lia.
Qed.

(** X13.  The loop of the constructor run with the member holding
    CacheFrequent: what it returns consists of Sparse groups and of pairs
    of an InfrequentDense group directly followed by a FrequentDense group
    with index -1 and the same lookup ids and placement strategy; so a
    Concat lookup is in twice as many groups as table groups contain its
    table, a Sum or Average lookup in as many. *)
Theorem cache_frequent_groups (n : Z) (lps : list LookupParam)
    (gtp : list GroupedTableParam) (gs : list GroupedLookupParam) :
  n <= Z.of_nat (length lps) ->
  build_grouped_lookup_params DenseCompressionStrategy.CacheFrequent n lps gtp = Ok gs ->
  frequent_pairs gs /\
  forall l lp, 0 <= l < n -> vec_at lps l = Ok lp ->
    groups_containing gs l =
    ((if is_dense (combiner lp) then 2 else 1) *
     table_groups_containing gtp (table_id lp))%nat.
Proof.
  intros Hn Hgs.
  assert (Hcl := build_Ok_closed _ n lps gtp gs Hn Hgs).
  destruct (build_outcome DenseCompressionStrategy.CacheFrequent n lps gtp Hn)
    as [[_ [m Hm]] | [Hf _]]; [congruence |].
  rewrite <- (map_snd_enumerate gtp) in Hf.
  rewrite <- (map_snd_enumerate gtp), Hcl.
  now apply flat_map_cache_frequent.
Qed.

(** * Further properties of the shard queries *)

Lemma sorted_nth_lt (v : list Z) (i j : nat) (x y : Z) :
  StronglySorted Z.lt v ->
  nth_error v i = Some x -> nth_error v j = Some y -> (i < j)%nat -> x < y.
Proof.
  intros Hs. revert i j. induction Hs as [| a v Hs IH Ha]; intros i j Hi Hj Hij.
  - destruct i; discriminate.
  - destruct j as [| j]; [lia |]. simpl in Hj. destruct i as [| i]; simpl in Hi.
    + injection Hi as <-. rewrite Forall_forall in Ha.
      apply Ha. eapply nth_error_In; eauto.
    + apply (IH i j); auto. lia.
Qed.

Lemma sorted_nth_ge (v : list Z) (b : Z) (i : nat) (x : Z) :
  StronglySorted Z.lt v -> Forall (fun y => b <= y) v ->
  nth_error v i = Some x -> b + Z.of_nat i <= x.
Proof.
  intros Hs. revert b i. induction Hs as [| a v Hs IH Ha]; intros b i Hb Hi.
  - destruct i; discriminate.
  - apply Forall_cons_iff in Hb. destruct Hb as [Hba Hb].
    destruct i as [| i]; simpl in Hi.
    + injection Hi as <-. lia.
    + assert (H : (a + 1) + Z.of_nat i <= x).
      { apply IH; [| assumption]. rewrite Forall_forall in *.
        intros y Hy. specialize (Ha y Hy). lia. }
      lia.
Qed.

Lemma filter_none_below (v : list Z) (a : Z) :
  (forall y, In y v -> a < y) -> filter (fun y => y <? a) v = [].
Proof.
  induction v as [| y v IH]; intros H; simpl; [reflexivity |].
  assert (a < y) by (apply H; now left).
  destruct (Z.ltb_spec y a); [lia |].
  apply IH. intros z Hz. apply H. now right.
Qed.

Lemma sorted_filter_below (v : list Z) (i : nat) (x : Z) :
  StronglySorted Z.lt v -> nth_error v i = Some x ->
  length (filter (fun y => y <? x) v) = i.
Proof.
  intros Hs. revert i. induction Hs as [| a v Hs IH Ha]; intros i Hi.
  - destruct i; discriminate.
  - rewrite Forall_forall in Ha. destruct i as [| i]; simpl in Hi |- *.
    + injection Hi as <-. rewrite Z.ltb_irrefl.
      now rewrite filter_none_below.
    + assert (a < x) by (apply Ha; eapply nth_error_In; eauto).
      destruct (Z.ltb_spec a x); [| lia]. simpl. f_equal. now apply IH.
Qed.

Lemma shard_devices_range (sel : Z -> bool) (m : list (list Z)) (t : Z) :
  Forall (fun g => 0 <= g < Z.of_nat (length m)) (devices_where sel m t).
Proof.
  apply Forall_forall. intros g Hg. unfold devices_where in Hg.
  apply filter_In in Hg. destruct Hg as [Hg _]. now apply In_counter in Hg.
Qed.

(** X14.  The shard id preserves the order of the devices: for a query that
    returns [(r, n)], [r] is the number of devices with a lower index whose
    entry for the table is 1, so [0 <= r <= gpu_id] and [r < n], and [n] is
    at most the number of devices; two devices get the same [n], and the
    one with the lower index gets the lower shard id. *)
Theorem shard_id_preserves_device_order (p : EmbeddingCollectionParam) (t : Z) :
  column_in_range (shard_matrix p) t ->
  Z.of_nat (length (shard_matrix p)) <= INT_MAX ->
  (forall gpu r n, get_table_shard_id p gpu t = Ok (r, n) ->
     r = Z.of_nat (length (filter (fun g => g <? gpu)
                                  (shard_devices (shard_matrix p) t))) /\
     0 <= r <= gpu /\ r < n /\ gpu < Z.of_nat (length (shard_matrix p)) /\
     n <= Z.of_nat (length (shard_matrix p))) /\
  (forall gpu gpu' r r' n n',
     get_table_shard_id p gpu t = Ok (r, n) ->
     get_table_shard_id p gpu' t = Ok (r', n') ->
     n = n' /\ (gpu < gpu' <-> r < r')).
Proof.
  intros Hc Hm.
  assert (Hs := devices_where_sorted (fun e => e =? 1) (shard_matrix p) t).
  assert (Hr := shard_devices_range (fun e => e =? 1) (shard_matrix p) t).
  assert (Hl := devices_where_length (fun e => e =? 1) (shard_matrix p) t).
  fold shard_devices in Hs, Hr, Hl. split.
  - intros gpu r n H. apply get_table_shard_id_Ok in H; try assumption.
    destruct H as [-> [H0 Hn]].
    assert (Hlt : (Z.to_nat r < length (shard_devices (shard_matrix p) t))%nat)
      by (apply nth_error_Some; congruence).
    assert (Hge : 0 + Z.of_nat (Z.to_nat r) <= gpu).
    { eapply sorted_nth_ge; eauto.
      eapply Forall_impl; [| exact Hr]. cbn. intros; lia. }
    assert (Hin : In gpu (shard_devices (shard_matrix p) t))
      by (eapply nth_error_In; eauto).
    rewrite Forall_forall in Hr. specialize (Hr gpu Hin).
    rewrite (sorted_filter_below _ _ _ Hs Hn). lia.
  - intros gpu gpu' r r' n n' H H'.
    apply get_table_shard_id_Ok in H, H'; try assumption.
    destruct H as [-> [H0 Hn]]. destruct H' as [-> [H0' Hn']].
    split; [reflexivity |]. split; intros Hlt.
    + destruct (Z.lt_ge_cases r r') as [Hc' | Hc']; [assumption | exfalso].
      destruct (Z.eq_dec r r') as [<- | Hne]; [rewrite Hn in Hn'; injection Hn'; lia |].
      assert (gpu' < gpu); [| lia].
      apply (sorted_nth_lt _ (Z.to_nat r') (Z.to_nat r) _ _ Hs Hn' Hn). lia.
    + apply (sorted_nth_lt _ (Z.to_nat r) (Z.to_nat r') _ _ Hs Hn Hn'). lia.
Qed.

Lemma shard_loop_undefined (t : Z) (its : list (nat * list Z)) (acc : list Z) :
  match for_each (shard_loop_body t) its acc with
  | Ok _ => Forall (fun row => 0 <= t < Z.of_nat (length row)) (map snd its)
  | Raise _ => False
  | Undefined => ~ Forall (fun row => 0 <= t < Z.of_nat (length row)) (map snd its)
  end.
Proof.
  revert acc. induction its as [| [k row] its IH]; intros acc; cbn [for_each map snd].
  - constructor.
  - unfold shard_loop_body at 1.
    destruct (vec_at row t) as [e | x |] eqn:Ev; cbn [bind].
    + apply vec_at_Ok_range in Ev.
      assert (H : forall acc', match for_each (shard_loop_body t) its acc' with
                | Ok _ => Forall (fun row => 0 <= t < Z.of_nat (length row))
                                 (row :: map snd its)
                | Raise _ => False
                | Undefined => ~ Forall (fun row => 0 <= t < Z.of_nat (length row))
                                        (row :: map snd its)
                end).
      { intros acc'. specialize (IH acc').
        destruct (for_each (shard_loop_body t) its acc'); auto.
        intros H. apply Forall_cons_iff in H. tauto. }
      destruct (e =? 1); apply H.
    + now apply vec_at_never_raises in Ev.
    + intros H. apply Forall_cons_iff in H. destruct H as [H _].
      apply vec_at_in_range with (v := row) in H. destruct H as [a Ha]. congruence.
Qed.

(** X15.  [get_table_shard_id] reads the column of the table in every row
    of the shard matrix, whatever device is asked for: its behaviour is
    undefined exactly when some row has no such column.  A short row makes
    every query for the table undefined, also for the other devices. *)
Theorem shard_id_undefined_iff (p : EmbeddingCollectionParam) (gpu t : Z) :
  get_table_shard_id p gpu t = Undefined <-> ~ column_in_range (shard_matrix p) t.
Proof.
  unfold get_table_shard_id, column_in_range.
  assert (H := shard_loop_undefined t (enumerate (shard_matrix p)) []).
  rewrite map_snd_enumerate in H.
  destruct (for_each (shard_loop_body t) (enumerate (shard_matrix p)) [])
    as [devs | e |]; cbn [bind].
  - unfold HCTR_CHECK_HINT. split; [| tauto].
    destruct (negb _); cbn [bind]; discriminate.
  - destruct H.
  - tauto.
Qed.

Lemma nth_error_counter (n : Z) (i : nat) :
  (i < Z.to_nat n)%nat -> nth_error (counter n) i = Some (Z.of_nat i).
Proof.
  intros Hi. unfold counter. rewrite nth_error_map.
  rewrite nth_error_seq. destruct (Nat.ltb_spec i (Z.to_nat n)); [reflexivity | lia].
Qed.

Lemma filter_all {A : Type} (f : A -> bool) (v : list A) :
  (forall a, In a v -> f a = true) -> filter f v = v.
Proof.
  induction v as [| x v IH]; intros H; simpl; [reflexivity |].
  rewrite (H x (or_introl eq_refl)). f_equal. apply IH. intros a Ha. apply H. now right.
Qed.

(** X16.  A table that every device holds: when the entry for the table is
    1 in every row, the shard id of a device is its index and [num_shard]
    is the number of devices. *)
Theorem replicated_table_shard_id (p : EmbeddingCollectionParam) (gpu t : Z) :
  Forall (fun row => vec_at row t = Ok 1) (shard_matrix p) ->
  Z.of_nat (length (shard_matrix p)) <= INT_MAX ->
  0 <= gpu < Z.of_nat (length (shard_matrix p)) ->
  get_table_shard_id p gpu t = Ok (gpu, Z.of_nat (length (shard_matrix p))).
Proof.
  intros Hall Hm Hg.
  assert (Hc : column_in_range (shard_matrix p) t).
  { unfold column_in_range. eapply Forall_impl; [| exact Hall].
    cbn. intros row Hrow. eapply vec_at_Ok_range; eauto. }
  assert (Hd : shard_devices (shard_matrix p) t =
               counter (Z.of_nat (length (shard_matrix p)))).
  { unfold shard_devices, devices_where. apply filter_all. intros g Hin.
    apply In_counter in Hin. unfold shard_entry.
    destruct (vec_at_in_range (shard_matrix p) g Hin) as [row Hrow].
    rewrite Hrow. cbn [bind].
    assert (Hin' : In row (shard_matrix p)).
    { apply vec_at_Ok in Hrow. destruct Hrow as [_ Hrow]. eapply nth_error_In; eauto. }
    rewrite Forall_forall in Hall. now rewrite (Hall row Hin'). }
  apply get_table_shard_id_Ok; try assumption. rewrite Hd.
  split; [| split; [lia |]].
  - unfold counter. now rewrite length_map, length_seq, Nat2Z.id.
  - rewrite nth_error_counter by lia. f_equal. lia.
Qed.

Lemma shard_entry_never_raises (m : list (list Z)) (g t : Z) (e : Exception) :
  shard_entry m g t <> Raise e.
Proof.
  unfold shard_entry. destruct (vec_at m g) as [row | x |] eqn:E; cbn [bind].
  - apply vec_at_never_raises.
  - now apply vec_at_never_raises in E.
  - discriminate.
Qed.

Lemma lookup_id_in_group_never_raises (p : EmbeddingCollectionParam) (g l : Z)
    (e : Exception) :
  lookup_id_in_group p g l <> Raise e.
Proof.
  unfold lookup_id_in_group.
  destruct (vec_at (grouped_lookup_params p) g) as [grp | x |] eqn:E; cbn [bind];
    try discriminate.
  now apply vec_at_never_raises in E.
Qed.

(** X17.  [has_table_shard] never throws, and it returns a value exactly
    when the lookup, the device, the table of the lookup and the group all
    exist.  It reads the shard matrix before it tests the group: for a
    device or table outside the matrix its behaviour is undefined also when
    the lookup is not in the group. *)
Theorem has_table_shard_reads_matrix_first (p : EmbeddingCollectionParam)
    (gpu g l : Z) :
  (forall e, has_table_shard p gpu g l <> Raise e) /\
  ((exists b, has_table_shard p gpu g l = Ok b) <->
   exists lp e grp,
     vec_at (lookup_params p) l = Ok lp /\
     shard_entry (shard_matrix p) gpu (table_id lp) = Ok e /\
     vec_at (grouped_lookup_params p) g = Ok grp) /\
  (forall lp, vec_at (lookup_params p) l = Ok lp ->
     shard_entry (shard_matrix p) gpu (table_id lp) = Undefined ->
     has_table_shard p gpu g l = Undefined).
Proof.
  rewrite has_table_shard_unfold. unfold lookup_id_in_group.
  destruct (vec_at (lookup_params p) l) as [lp | x |] eqn:El; cbn [bind].
  - destruct (shard_entry (shard_matrix p) gpu (table_id lp)) as [e | x |] eqn:Ee;
      cbn [bind].
    + destruct (vec_at (grouped_lookup_params p) g) as [grp | x |] eqn:Eg; cbn [bind].
      * split; [discriminate |]. split.
        -- split; [intros _; exists lp, e, grp; auto | eauto].
        -- intros lp0 H0 H1. injection H0 as <-. congruence.
      * now apply vec_at_never_raises in Eg.
      * split; [discriminate |]. split; [| reflexivity].
        split; [intros [b H]; discriminate |].
        intros [lp' [e' [grp [_ [_ H]]]]]. discriminate.
    + now apply shard_entry_never_raises in Ee.
    + split; [discriminate |]. split; [| reflexivity].
      split; [intros [b H]; discriminate |].
      intros [lp' [e' [grp [Hlp [H _]]]]]. injection Hlp as <-. congruence.
  - now apply vec_at_never_raises in El.
  - split; [discriminate |]. split; [| discriminate].
    split; [intros [b H]; discriminate |].
    intros [lp' [e' [grp [H _]]]]. discriminate.
Qed.

(** X18.  On a column of zeros and ones the two shard queries agree: for a
    lookup of the table that is in the group, [has_table_shard] is true for
    a device exactly when [get_table_shard_id] returns a result for it, and
    the [num_shard] of any result is the number of devices for which
    [has_table_shard] is true. *)
Theorem shard_queries_agree_on_boolean_column (p : EmbeddingCollectionParam)
    (g l : Z) (lp : LookupParam) :
  vec_at (lookup_params p) l = Ok lp ->
  lookup_id_in_group p g l = Ok true ->
  column_in_range (shard_matrix p) (table_id lp) ->
  Z.of_nat (length (shard_matrix p)) <= INT_MAX ->
  boolean_column (shard_matrix p) (table_id lp) ->
  (forall gpu, has_table_shard p gpu g l = Ok true <->
               exists r n, get_table_shard_id p gpu (table_id lp) = Ok (r, n)) /\
  (forall gpu r n, get_table_shard_id p gpu (table_id lp) = Ok (r, n) ->
     n = Z.of_nat (length (filter (fun d => returned_true (has_table_shard p d g l))
                                  (counter (Z.of_nat (length (shard_matrix p))))))).
Proof.
  intros Hlp Hg Hc Hm Hb.
  assert (Hhas : forall d, has_table_shard p d g l =
            e <- shard_entry (shard_matrix p) d (table_id lp) ;; Ok (negb (e =? 0))).
  { intros d. rewrite has_table_shard_unfold, Hlp. cbn [bind].
    destruct (shard_entry _ d _); cbn [bind]; try reflexivity. now rewrite Hg. }
  split.
  - intros gpu. rewrite Hhas.
    destruct (get_table_shard_id_outcome p gpu (table_id lp) Hc Hm)
      as [[He Hf] | [He Hr]].
    + split.
      * destruct (shard_entry _ gpu _) as [e | |] eqn:Ee; cbn [bind]; try discriminate.
        intros [= H]. apply negb_true_iff, Z.eqb_neq in H.
        destruct (Hb gpu e Ee); congruence.
      * intros [r [n H]]. congruence.
    + split; [intros _; exact Hr |]. intros _. now rewrite He.
  - intros gpu r n H. apply get_table_shard_id_Ok in H; try assumption.
    destruct H as [-> _]. f_equal. f_equal.
    unfold shard_devices, devices_where. apply filter_ext_in. intros d _.
    rewrite Hhas.
    destruct (shard_entry _ d _) as [e | |] eqn:Ee; cbn [bind returned_true];
      try reflexivity.
    destruct (Hb d e Ee) as [-> | ->]; reflexivity.
Qed.

(** * The further properties on the example configurations *)

Lemma supported_lookups (n : Z) (lps : list LookupParam) (gtp : list GroupedTableParam) :
  (forall lp, In lp lps -> supported (combiner lp) = true) ->
  ~ Exists (has_lookup n lps other_combiner) gtp.
Proof.
  intros H He. apply Exists_exists in He.
  destruct He as [tp [_ [l [lp [_ [Hlp [_ Ho]]]]]]].
  apply unsupported_iff in Ho. unfold unsupported in Ho.
  apply vec_at_Ok in Hlp. destruct Hlp as [_ Hlp]. apply nth_error_In in Hlp.
  rewrite (H lp Hlp) in Ho. discriminate.
Qed.

Lemma three_lookups_supported (gtp : list GroupedTableParam) :
  ~ Exists (has_lookup 3 three_lookups other_combiner) gtp.
Proof.
  apply supported_lookups. intros lp [<- | [<- | [<- | []]]]; reflexivity.
Qed.

Lemma four_devices_columns (t : Z) :
  0 <= t < 3 -> column_in_range four_devices t.
Proof. intros H. repeat constructor; simpl; lia. Qed.

Lemma four_devices_count : Z.of_nat (length four_devices) <= INT_MAX.
Proof. unfold INT_MAX. simpl. lia. Qed.

Lemma construction_closed_form_witness :
  3 <= Z.of_nat (length three_lookups) /\
  ~ Exists (has_lookup 3 three_lookups other_combiner) [three_tables] /\
  build_grouped_lookup_params DenseCompressionStrategy.CacheFrequent 3
    three_lookups [three_tables] =
  Ok (flat_map (table_group_groups DenseCompressionStrategy.CacheFrequent 3
                  three_lookups) (enumerate [three_tables])).
Proof.
  split; [simpl; lia |]. split; [apply three_lookups_supported |].
  apply (construction_closed_form 3 1024 four_devices FeatureMajor FeatureMajor
           Radix AddOffset AllreduceDense Uniform
           DenseCompressionStrategy.CacheFrequent 3 three_lookups [three_tables]).
  - simpl; lia.
  - apply three_lookups_supported.
  - intros [_ H]. now apply H.
Defined.

Lemma group_membership_witness :
  3 <= Z.of_nat (length three_lookups) /\
  Z.of_nat (length [three_tables]) <= INT_MAX /\
  construct 3 three_lookups four_devices [three_tables] = Ok example_param /\
  vec_at (grouped_lookup_params example_param) 1 = Ok (mk_group 0 [0; 2] Dense) /\
  exists tp,
    vec_at [three_tables] 0 = Ok tp /\
    ModelParallel = table_placement_strategy tp /\
    forall l, lookup_id_in_group example_param 1 l = Ok true <->
              0 <= l < 3 /\
              exists lp, vec_at three_lookups l = Ok lp /\
                         In (table_id lp) (table_ids tp) /\
                         fits Dense (combiner lp).
Proof.
  assert (Hm : Z.of_nat (length [three_tables]) <= INT_MAX)
    by (unfold INT_MAX; simpl; lia).
  split; [simpl; lia |]. split; [exact Hm |]. split; [reflexivity |].
  split; [reflexivity |].
  apply (group_membership 3 1024 four_devices FeatureMajor FeatureMajor
           Radix AddOffset AllreduceDense Uniform 3 three_lookups [three_tables]
           example_param 1 (mk_group 0 [0; 2] Dense)).
  - simpl; lia.
  - exact Hm.
  - reflexivity.
  - reflexivity.
Defined.

Lemma lookup_ids_ascending_witness :
  3 <= Z.of_nat (length three_lookups) /\
  build_grouped_lookup_params DenseCompressionStrategy.CacheFrequent 3
    three_lookups [three_tables] =
  Ok [mk_group 0 [1] Sparse; mk_group 0 [0; 2] InfrequentDense;
      mk_group (-1) [0; 2] FrequentDense] /\
  forall grp,
    In grp [mk_group 0 [1] Sparse; mk_group 0 [0; 2] InfrequentDense;
            mk_group (-1) [0; 2] FrequentDense] ->
    StronglySorted Z.lt (lookup_ids grp) /\ NoDup (lookup_ids grp) /\
    forall l, In l (lookup_ids grp) -> 0 <= l < 3.
Proof.
  split; [simpl; lia |]. split; [reflexivity |].
  apply (lookup_ids_ascending 3 1024 four_devices FeatureMajor FeatureMajor
           Radix AddOffset AllreduceDense Uniform
           DenseCompressionStrategy.CacheFrequent 3 three_lookups [three_tables]).
  - simpl; lia.
  - reflexivity.
Defined.

Lemma groups_of_a_lookup_witness :
  3 <= Z.of_nat (length three_lookups) /\
  exists p,
    construct 3 three_lookups four_devices [three_tables; last_table] = Ok p /\
    groups_containing (grouped_lookup_params p) 2 = 2%nat.
Proof.
  split; [simpl; lia |]. eexists. split; [reflexivity |].
  apply (proj1 (groups_of_a_lookup 3 1024 four_devices FeatureMajor FeatureMajor
           Radix AddOffset AllreduceDense Uniform 3 three_lookups
           [three_tables; last_table] _ ltac:(simpl; lia) eq_refl)
           2 (mk_lookup 2 2 Combiner.Concat)).
  - lia.
  - reflexivity.
Defined.

Lemma groups_follow_table_groups_witness :
  3 <= Z.of_nat (length three_lookups) /\
  Z.of_nat (length [three_tables]) <= INT_MAX /\
  construct 3 three_lookups four_devices [three_tables] = Ok example_param /\
  StronglySorted group_before (grouped_lookup_params example_param) /\
  (length (grouped_lookup_params example_param) <= 2 * length [three_tables])%nat.
Proof.
  assert (Hm : Z.of_nat (length [three_tables]) <= INT_MAX)
    by (unfold INT_MAX; simpl; lia).
  split; [simpl; lia |]. split; [exact Hm |]. split; [reflexivity |].
  apply (groups_follow_table_groups 3 1024 four_devices FeatureMajor FeatureMajor
           Radix AddOffset AllreduceDense Uniform 3 three_lookups [three_tables]
           example_param).
  - simpl; lia.
  - exact Hm.
  - reflexivity.
Defined.

Lemma construction_of_nothing_witness :
  ([three_tables] = [] \/ 0 <= 0) /\
  exists p, construct 0 [] four_devices [three_tables] = Ok p /\
            grouped_lookup_params p = [].
Proof.
  split; [right; lia |].
  apply (construction_of_nothing 3 1024 four_devices FeatureMajor FeatureMajor
           Radix AddOffset AllreduceDense Uniform 0 [] [three_tables]).
  right. lia.
Defined.

Lemma construction_reads_past_the_end_witness :
  Z.of_nat (length three_lookups) < 4 /\
  build_grouped_lookup_params DenseCompressionStrategy.Unique 4 three_lookups
    [three_tables] = Undefined.
Proof.
  split; [simpl; lia |].
  apply (construction_reads_past_the_end DenseCompressionStrategy.Unique 4
           three_lookups three_tables []).
  simpl; lia.
Defined.

Lemma construction_reads_table_and_combiner_witness :
  Forall2 same_lookup three_lookups
    [{| lookup_id := 7; table_id := 0; combiner := Combiner.Concat;
        max_hotness := 5; ev_size := 16 |};
     {| lookup_id := 7; table_id := 1; combiner := Combiner.Sum;
        max_hotness := 1; ev_size := 4 |};
     {| lookup_id := 0; table_id := 2; combiner := Combiner.Concat;
        max_hotness := 2; ev_size := 8 |}] /\
  groups_of (construct 3 three_lookups four_devices [three_tables]) =
  groups_of (construct 3
    [{| lookup_id := 7; table_id := 0; combiner := Combiner.Concat;
        max_hotness := 5; ev_size := 16 |};
     {| lookup_id := 7; table_id := 1; combiner := Combiner.Sum;
        max_hotness := 1; ev_size := 4 |};
     {| lookup_id := 0; table_id := 2; combiner := Combiner.Concat;
        max_hotness := 2; ev_size := 8 |}] four_devices [three_tables]).
Proof.
  assert (H : Forall2 same_lookup three_lookups
    [{| lookup_id := 7; table_id := 0; combiner := Combiner.Concat;
        max_hotness := 5; ev_size := 16 |};
     {| lookup_id := 7; table_id := 1; combiner := Combiner.Sum;
        max_hotness := 1; ev_size := 4 |};
     {| lookup_id := 0; table_id := 2; combiner := Combiner.Concat;
        max_hotness := 2; ev_size := 8 |}])
    by (repeat constructor).
  split; [exact H |].
  apply (proj2 (construction_reads_table_and_combiner 3 1024 four_devices
                  FeatureMajor FeatureMajor Radix AddOffset AllreduceDense Uniform
                  DenseCompressionStrategy.Unique 3 _ _ [three_tables] H)).
Defined.

Lemma construction_reads_table_ids_as_sets_witness :
  Forall2 same_table_group [three_tables]
    [{| table_placement_strategy := ModelParallel; table_ids := [2; 1; 0; 1] |}] /\
  groups_of (construct 3 three_lookups four_devices [three_tables]) =
  groups_of (construct 3 three_lookups four_devices
    [{| table_placement_strategy := ModelParallel; table_ids := [2; 1; 0; 1] |}]).
Proof.
  assert (H : Forall2 same_table_group [three_tables]
    [{| table_placement_strategy := ModelParallel; table_ids := [2; 1; 0; 1] |}]).
  { constructor; [| constructor]. split; [reflexivity |].
    intros t. simpl. lia. }
  split; [exact H |].
  apply (proj2 (construction_reads_table_ids_as_sets 3 1024 four_devices
                  FeatureMajor FeatureMajor Radix AddOffset AllreduceDense Uniform
                  DenseCompressionStrategy.Unique 3 three_lookups _ _ H)).
Defined.

Lemma first_rejected_table_group_decides_witness :
  2 <= Z.of_nat (length [mk_lookup 0 0 Combiner.Concat; mk_lookup 1 1 7]) /\
  Forall (fun tp' => ~ group_rejected 5 2
                        [mk_lookup 0 0 Combiner.Concat; mk_lookup 1 1 7] tp')
         [last_table] /\
  has_lookup 2 [mk_lookup 0 0 Combiner.Concat; mk_lookup 1 1 7] other_combiner
    two_tables /\
  build_grouped_lookup_params 5 2 [mk_lookup 0 0 Combiner.Concat; mk_lookup 1 1 7]
    ([last_table] ++ two_tables :: []) =
  Raise (OwnThrow IllegalCall combiner_not_supported).
Proof.
  assert (Hf : Forall (fun tp' => ~ group_rejected 5 2
                 [mk_lookup 0 0 Combiner.Concat; mk_lookup 1 1 7] tp') [last_table]).
  { constructor; [| constructor].
    intros [[l [lp [Hl [Hlp [Hin _]]]]] | [[l [lp [Hl [Hlp [Hin _]]]]] _]];
      (assert (Hc : l = 0 \/ l = 1) by lia);
      destruct Hc as [-> | ->]; injection Hlp as <-; simpl in Hin; lia. }
  assert (Hh : has_lookup 2 [mk_lookup 0 0 Combiner.Concat; mk_lookup 1 1 7]
                 other_combiner two_tables).
  { exists 1, (mk_lookup 1 1 7). split; [lia |]. split; [reflexivity |].
    split; [simpl; lia |]. repeat split; discriminate. }
  split; [simpl; lia |]. split; [exact Hf |]. split; [exact Hh |].
  apply (proj1 (first_rejected_table_group_decides 5 2
                  [mk_lookup 0 0 Combiner.Concat; mk_lookup 1 1 7]
                  [last_table] [] two_tables ltac:(simpl; lia) Hf) Hh).
Defined.

Lemma cache_frequent_groups_witness :
  3 <= Z.of_nat (length three_lookups) /\
  build_grouped_lookup_params DenseCompressionStrategy.CacheFrequent 3
    three_lookups [three_tables] =
  Ok [mk_group 0 [1] Sparse; mk_group 0 [0; 2] InfrequentDense;
      mk_group (-1) [0; 2] FrequentDense] /\
  frequent_pairs [mk_group 0 [1] Sparse; mk_group 0 [0; 2] InfrequentDense;
                  mk_group (-1) [0; 2] FrequentDense].
Proof.
  split; [simpl; lia |]. split; [reflexivity |].
  apply (cache_frequent_groups 3 three_lookups [three_tables]).
  - simpl; lia.
  - reflexivity.
Defined.

Lemma shard_id_preserves_device_order_witness :
  column_in_range (shard_matrix example_param) 1 /\
  Z.of_nat (length (shard_matrix example_param)) <= INT_MAX /\
  get_table_shard_id example_param 1 1 = Ok (0, 2) /\
  get_table_shard_id example_param 2 1 = Ok (1, 2) /\
  (1 < 2 <-> 0 < 1).
Proof.
  assert (Hc : column_in_range (shard_matrix example_param) 1)
    by (apply four_devices_columns; lia).
  split; [exact Hc |]. split; [exact four_devices_count |].
  split; [reflexivity |]. split; [reflexivity |].
  apply (proj2 (shard_id_preserves_device_order example_param 1 Hc four_devices_count)
           1 2 0 1 2 2); reflexivity.
Defined.

Lemma replicated_table_shard_id_witness :
  Forall (fun row => vec_at row 0 = Ok 1)
         (shard_matrix (with_shard_matrix [[1; 0]; [1; 1]; [1; 0]] example_param)) /\
  get_table_shard_id (with_shard_matrix [[1; 0]; [1; 1]; [1; 0]] example_param) 2 0 =
  Ok (2, 3).
Proof.
  assert (H : Forall (fun row => vec_at row 0 = Ok 1)
         (shard_matrix (with_shard_matrix [[1; 0]; [1; 1]; [1; 0]] example_param)))
    by (repeat constructor).
  split; [exact H |].
  apply (replicated_table_shard_id
           (with_shard_matrix [[1; 0]; [1; 1]; [1; 0]] example_param) 2 0 H).
  - unfold INT_MAX. simpl. lia.
  - simpl. lia.
Defined.

Lemma four_devices_boolean_column : boolean_column four_devices 1.
Proof.
  intros g e H. unfold shard_entry in H.
  destruct (vec_at four_devices g) as [row | |] eqn:Er; cbn [bind] in H;
    try discriminate.
  assert (Hg := vec_at_Ok_range _ _ _ Er). simpl in Hg.
  assert (Hc : g = 0 \/ g = 1 \/ g = 2 \/ g = 3) by lia.
  destruct Hc as [-> | [-> | [-> | ->]]]; injection Er as <-; injection H as <-; lia.
Qed.

Lemma shard_queries_agree_on_boolean_column_witness :
  vec_at (lookup_params example_param) 1 = Ok (mk_lookup 1 1 Combiner.Sum) /\
  lookup_id_in_group example_param 0 1 = Ok true /\
  column_in_range (shard_matrix example_param) 1 /\
  Z.of_nat (length (shard_matrix example_param)) <= INT_MAX /\
  boolean_column (shard_matrix example_param) 1 /\
  get_table_shard_id example_param 2 1 = Ok (1, 2) /\
  2 = Z.of_nat (length (filter
        (fun d => returned_true (has_table_shard example_param d 0 1))
        (counter (Z.of_nat (length (shard_matrix example_param)))))).
Proof.
  assert (Hc : column_in_range (shard_matrix example_param) 1)
    by (apply four_devices_columns; lia).
  split; [reflexivity |]. split; [reflexivity |]. split; [exact Hc |].
  split; [exact four_devices_count |]. split; [exact four_devices_boolean_column |].
  split; [reflexivity |].
  apply (proj2 (shard_queries_agree_on_boolean_column example_param 0 1
                  (mk_lookup 1 1 Combiner.Sum) eq_refl eq_refl Hc four_devices_count
                  four_devices_boolean_column) 2 1 2).
  reflexivity.
Defined.
